(** * Webhook catcher worker: storage and indexing core

    A shallow embedding of [src/index.ts]: key codec, flat-payload validator,
    namespace gate, listing service, namespace scanner and batch deleter,
    together with the properties the specification states about them.

    Conventions of the embedding.
    - A JavaScript string is a [string]: a sequence of code units, of which the
      8-bit ones are represented.
    - A JavaScript number is a [JsNumber]: NaN, an infinity, or a finite value.
      Every finite double is a rational, and the operations the worker applies
      to numbers (truthiness, [Math.min], [Math.max]) are exact, so a finite
      value is carried as a canonical rational [Qc]; the sign of zero is not
      observable by them.
    - Builtins of the host that the worker calls but does not define
      ([Number] on strings, [String.prototype.localeCompare], [btoa], number to
      string conversion) are the fields of [JsHost].
    - The KV binding is read through [KVNamespace]: the answers of [list] and
      [get], and whether a [delete] call resolves or rejects. The writes a
      handler issues are returned as a list of [KVWrite] calls, in the order
      the handler issues them, and [kv_run] applies them to the contents of
      the store. The [list], [get] and [put] calls are taken to resolve, so
      the handlers that make them are described when they do; the expiry and
      metadata options of [put] are not represented. *)

From Stdlib Require Import Ascii QArith Qcanon.
From stdpp Require Import base option list gmap strings pretty sorting.

Local Open Scope Z_scope.

(** ** Strings *)

Module Str.

Fixpoint to_list (s : string) : list ascii :=
  match s with
  | EmptyString => []
  | String c s' => c :: to_list s'
  end.

Fixpoint of_list (l : list ascii) : string :=
  match l with
  | [] => EmptyString
  | c :: l' => String c (of_list l')
  end.

(** [s.indexOf(c)] for a one-character needle; [None] stands for [-1]. *)
Fixpoint indexOf (c : ascii) (s : string) : option nat :=
  match s with
  | EmptyString => None
  | String a s' =>
      if decide (a = c) then Some 0%nat else S <$> indexOf c s'
  end.

(** [s.slice(from, to)] for [0 <= from] and [0 <= to]. *)
Definition slice (from to : nat) (s : string) : string :=
  of_list (take (to - from) (drop from (to_list s))).

(** White space of [String.prototype.trim] among the 8-bit code units:
    TAB, LF, VT, FF, CR, SPACE and NBSP. *)
Definition is_white (a : ascii) : bool :=
  match a with
  | "009" | "010" | "011" | "012" | "013" | " " | "160" => true
  | _ => false
  end%char.

Fixpoint trimStart (s : string) : string :=
  match s with
  | EmptyString => EmptyString
  | String a s' => if is_white a then trimStart s' else s
  end.

(** The characters of [l] without its trailing white space. *)
Fixpoint trimEnd_list (l : list ascii) : list ascii :=
  match l with
  | [] => []
  | a :: l' =>
      match trimEnd_list l' with
      | [] => if is_white a then [] else [a]
      | r => a :: r
      end
  end.

Definition trim (s : string) : string :=
  of_list (trimEnd_list (to_list (trimStart s))).

(** [s.split(sep)] for a one-character separator: never empty, the empty
    string splits into one empty piece. *)
Fixpoint split (sep : ascii) (s : string) : list string :=
  match s with
  | EmptyString => [EmptyString]
  | String a s' =>
      if decide (a = sep) then EmptyString :: split sep s'
      else match split sep s' with
           | [] => [String a EmptyString]
           | p :: ps => String a p :: ps
           end
  end.

(** [s.replace(/[:.]/g, "-")]. *)
Fixpoint replace_colon_dot (s : string) : string :=
  match s with
  | EmptyString => EmptyString
  | String a s' =>
      String (if decide (a = ":"%char) then "-"%char
              else if decide (a = "."%char) then "-"%char else a)
             (replace_colon_dot s')
  end.

(** [arr.join(sep)]. *)
Fixpoint join (sep : string) (l : list string) : string :=
  match l with
  | [] => ""
  | [s] => s
  | s :: l' => s +:+ sep +:+ join sep l'
  end.

Definition nonempty (s : string) : bool :=
  match s with EmptyString => false | _ => true end.

End Str.

(** ** Numbers *)

Inductive JsNumber : Type :=
  | JsNaN
  | JsNegInf
  | JsPosInf
  | JsFin (q : Qc).

Definition JsInt (z : Z) : JsNumber := JsFin (Qc_of_Z z).

Module Num.

(** [ToBoolean] on a number: NaN and zero are falsy. *)
Definition truthy (n : JsNumber) : bool :=
  match n with
  | JsNaN => false
  | JsFin q => negb (Qeq_bool (this q) 0)
  | _ => true
  end.

(** [a || b] on numbers. *)
Definition or (a b : JsNumber) : JsNumber := if truthy a then a else b.

(** [a <= b]; false as soon as one side is NaN. *)
Definition leb (a b : JsNumber) : bool :=
  match a, b with
  | JsNaN, _ | _, JsNaN => false
  | JsNegInf, _ => true
  | _, JsPosInf => true
  | JsFin x, JsFin y => Qle_bool (this x) (this y)
  | _, _ => false
  end.

(** [Math.max(a, b)] and [Math.min(a, b)]: NaN when an argument is NaN. *)
Definition max (a b : JsNumber) : JsNumber :=
  match a, b with
  | JsNaN, _ | _, JsNaN => JsNaN
  | _, _ => if leb a b then b else a
  end.

Definition min (a b : JsNumber) : JsNumber :=
  match a, b with
  | JsNaN, _ | _, JsNaN => JsNaN
  | _, _ => if leb a b then a else b
  end.

Definition of_nat (n : nat) : JsNumber := JsInt (Z.of_nat n).

End Num.

(** ** JSON values, as [request.json()] produces them *)

#[warnings="-register-all"]
Inductive JSON : Type :=
  | JNull
  | JBool (b : bool)
  | JNumber (n : JsNumber)
  | JString (s : string)
  | JArray (elems : list JSON)
  | JObject (fields : list (string * JSON)).

(** [typeof v === "object"]: true of objects, arrays and null. *)
Definition typeof_object (v : JSON) : bool :=
  match v with
  | JNull | JArray _ | JObject _ => true
  | _ => false
  end.

Definition is_null (v : JSON) : bool :=
  match v with JNull => true | _ => false end.

Definition Array_isArray (v : JSON) : bool :=
  match v with JArray _ => true | _ => false end.

(** [ToBoolean] on a JSON value. *)
Definition json_truthy (v : JSON) : bool :=
  match v with
  | JNull => false
  | JBool b => b
  | JNumber n => Num.truthy n
  | JString s => Str.nonempty s
  | JArray _ | JObject _ => true
  end.

(** [obj[name]] for an own property; [None] stands for [undefined]. Arrays
    and primitives have no property of the names the worker reads. *)
Fixpoint assoc (name : string) (fields : list (string * JSON)) : option JSON :=
  match fields with
  | [] => None
  | (k, v) :: rest => if decide (k = name) then Some v else assoc name rest
  end.

Definition property (name : string) (v : JSON) : option JSON :=
  match v with
  | JObject fields => assoc name fields
  | _ => None
  end.

(** ** The host *)

(** Builtins the worker calls and does not define. [StringToNumber s] is
    [Number(s)], [NumberToString n] is [String(n)], [localeCompare a b] is the
    sign of [a.localeCompare(b)], and [btoa] is the base-64 encoder. *)
Class JsHost : Type := {
  StringToNumber : string → JsNumber;
  NumberToString : JsNumber → string;
  localeCompare : string → string → comparison;
  btoa : string → string;
}.

(** [Number(v)] for [v : string | null]: [Number(null)] is [+0]. *)
Definition Number `{JsHost} (v : option string) : JsNumber :=
  match v with
  | None => JsInt 0
  | Some s => StringToNumber s
  end.

(** A value interpolated in a template literal; [None] when the conversion
    throws a [TypeError]. An array is converted by [join], which renders
    [null] as the empty string and converts every other element. An object
    is converted by the [toString] it finds: the inherited one answers
    ["[object Object]"]; an own property named [toString] hides it, and as a
    parsed JSON value is never callable and the inherited [valueOf] answers
    the object itself, the conversion then throws. *)
Fixpoint ToString `{JsHost} (v : JSON) : option string :=
  match v with
  | JNull => Some "null"
  | JBool true => Some "true"
  | JBool false => Some "false"
  | JNumber n => Some (NumberToString n)
  | JString s => Some s
  | JArray elems =>
      Str.join "," <$>
        mapM (fun e => match e with JNull => Some "" | _ => ToString e end) elems
  | JObject fields =>
      match assoc "toString" fields with
      | Some _ => None
      | None => Some "[object Object]"
      end
  end.

(** The consistency [Array.prototype.sort] requires of its comparator, for
    [localeCompare]: a total preorder. *)
Definition locale_le `{JsHost} (a b : string) : Prop := localeCompare a b ≠ Gt.

Class ConsistentCollation (host : JsHost) : Prop := {
  locale_le_total : ∀ a b, locale_le a b ∨ locale_le b a;
  locale_le_trans : ∀ a b c, locale_le a b → locale_le b c → locale_le a c;
}.

(** [arr.sort(cmp)] for a consistent comparator: the stable sorted
    rearrangement, here by insertion from the right. *)
Fixpoint sort_insert (cmp : string → string → comparison) (x : string)
    (l : list string) : list string :=
  match l with
  | [] => [x]
  | y :: l' =>
      match cmp x y with
      | Gt => y :: sort_insert cmp x l'
      | _ => x :: l
      end
  end.

Fixpoint Array_sort (cmp : string → string → comparison) (l : list string)
    : list string :=
  match l with
  | [] => []
  | x :: l' => sort_insert cmp x (Array_sort cmp l')
  end.

(** [set.add(x)] on a [Set], whose iteration order is insertion order. *)
Definition Set_add (x : string) (s : list string) : list string :=
  if bool_decide (x ∈ s) then s else s ++ [x].

(** ** Data model *)

Record EventRecord : Type := {
  id : string;
  apiKey : string;
  receivedAt : string;
  body : JSON;
}.

(** What a value becomes when it is written by [JSON.stringify] and parsed
    back: a number that is not finite is written as [null]. *)
Fixpoint JSON_roundtrip (v : JSON) : JSON :=
  match v with
  | JNumber (JsFin _) => v
  | JNumber _ => JNull
  | JArray elems => JArray (List.map JSON_roundtrip elems)
  | JObject fields =>
      JObject (List.map (fun kv => (fst kv, JSON_roundtrip (snd kv))) fields)
  | _ => v
  end.

(** [JSON.stringify(eventRecord)], as the record its text denotes: the
    record that [get(key, "json")] parses the stored text back to. *)
Definition JSON_stringify (r : EventRecord) : EventRecord :=
  {| id := id r;
     apiKey := apiKey r;
     receivedAt := receivedAt r;
     body := JSON_roundtrip (body r) |}.

Record KVNamespaceListOptions : Type := {
  opt_prefix : option string;
  opt_cursor : option string;
  opt_limit : JsNumber;
}.

(** The answer of [list]: the tagged union of the binding's declaration.
    Of a listed key only its [name] is read. *)
Inductive KVNamespaceListResult : Type :=
  | ListIncomplete (keys : list string) (cursor : string)
  | ListComplete (keys : list string).

Definition page_keys (page : KVNamespaceListResult) : list string :=
  match page with
  | ListIncomplete keys _ => keys
  | ListComplete keys => keys
  end.

(** What the binding answers to the calls of one request. [kv_list] and
    [kv_get] are independent: a listed key may have no value by the time it
    is fetched. [kv_delete i key] tells whether the promise of the [i]-th
    [delete] call of the request, made for [key], resolves ([true]) or
    rejects. *)
Record KVNamespace : Type := {
  kv_list : KVNamespaceListOptions → KVNamespaceListResult;
  kv_get : string → option EventRecord;
  kv_delete : nat → string → bool;
}.

(** [await Promise.all(promises)] on the outcomes of the promises: it
    resolves when every one of them does. *)
Definition Promise_all (outcomes : list bool) : bool :=
  forallb (fun resolved => resolved) outcomes.

Inductive KVWrite : Type :=
  | KVPut (key : string) (value : EventRecord)
  | KVDelete (key : string).

(** Modelled from the spec: the Event Store, a collaborator that is not part
    of the repository. [put] is an unconditional upsert and [delete] removes
    the key if present. *)
Definition kv_step (store : gmap string EventRecord) (w : KVWrite)
    : gmap string EventRecord :=
  match w with
  | KVPut key value => <[key := value]> store
  | KVDelete key => delete key store
  end.

Definition kv_run (ws : list KVWrite) (store : gmap string EventRecord)
    : gmap string EventRecord :=
  foldl kv_step store ws.

Record Env : Type := {
  WEBHOOKS : KVNamespace;
  ALLOWED_API_KEYS : option string;
  RETENTION_DAYS : option string;
  PANEL_USER : option string;
  PANEL_PASS : option string;
}.

(** The parts of a request the handlers read: three headers, four query
    parameters, and the outcome of [request.json()] ([None] when it throws). *)
Record Request : Type := {
  header_key : option string;
  header_x_api_key : option string;
  header_authorization : option string;
  query_api_key : option string;
  query_key : option string;
  query_limit : option string;
  query_cursor : option string;
  json : option JSON;
}.

(** What one ingestion reads from its surroundings: the clock, once for the
    id and once for [receivedAt], and the radix-36 digits of the fraction
    [Math.random()] returned. *)
Record Ambient : Type := {
  now_for_id : string;
  now_for_receivedAt : string;
  random_digits : list nat;
}.

Inductive ResponseBody : Type :=
  | BodyError (message : string)
  | BodyIngested (event_id : string)
  | BodyEvents (events : list EventRecord) (cursor : option string)
      (listComplete : bool)
  | BodyKeys (keys : list string)
  | BodyDeleted (deleted : nat).

Record Response : Type := {
  status : nat;
  payload : ResponseBody;
}.

(** How a handler completes: it returns an answer, or throws the
    [TypeError] of a failed conversion, or throws the error of a store call
    that rejected. *)
Inductive Completion : Type :=
  | Returned (r : Response)
  | ThrownTypeError
  | ThrownStoreError.

Definition NO_KEY : string := "NO-KEY".

(** ** Operations *)

Section Operations.
Context `{host : JsHost}.

Definition json_error (code : nat) (message : string) : Response :=
  {| status := code; payload := BodyError message |}.

(** [requireBasicAuth(request, env)]: [true] stands for [{ ok: true }]. *)
Definition requireBasicAuth (request : Request) (env : Env) : bool :=
  let hdr := header_authorization request in
  let user := default "" (PANEL_USER env) in
  let pass := default "" (PANEL_PASS env) in
  let expected := "Basic " +:+ btoa (user +:+ ":" +:+ pass) in
  match hdr with
  | None => false
  | Some h => Str.nonempty h && bool_decide (h = expected)
  end.

Definition present (v : option string) : bool :=
  match v with
  | Some s => Str.nonempty s
  | None => false
  end.

Definition readApiKey (request : Request) : option string :=
  if present (header_key request) then header_key request
  else if present (query_api_key request) then query_api_key request
  else if present (header_x_api_key request) then header_x_api_key request
  else None.

Definition toEffectiveKey (maybe : option string) : string :=
  let trimmed := Str.trim (default "" maybe) in
  if Str.nonempty trimmed then trimmed else NO_KEY.

Definition allowlist_of (env : Env) : list string :=
  List.filter Str.nonempty
    (List.map Str.trim (Str.split "," (default "" (ALLOWED_API_KEYS env)))).

Definition isApiKeyAllowed (apiKey : string) (env : Env) : bool :=
  let allowlist := allowlist_of env in
  if (length allowlist =? 0)%nat then true
  else bool_decide (apiKey ∈ allowlist).

Definition makeStorageKey (apiKey : string) (id : string) : string :=
  apiKey +:+ ":" +:+ id.

(** The radix-36 digit of value [d]. *)
Definition digit36 (d : nat) : ascii :=
  nth (d mod 36) (Str.to_list "0123456789abcdefghijklmnopqrstuvwxyz") "0"%char.

(** [Math.random().toString(36)]: the fraction lies in [0, 1), so the text
    is ["0"] when it is zero and ["0."] followed by its digits otherwise. *)
Definition Math_random_toString36 (digits : list nat) : string :=
  match digits with
  | [] => "0"
  | _ => "0." +:+ Str.of_list (List.map digit36 digits)
  end.

Definition generateEventId (amb : Ambient) : string :=
  let now := Str.replace_colon_dot (now_for_id amb) in
  let rand := Str.slice 2 10 (Math_random_toString36 (random_digits amb)) in
  now +:+ "_" +:+ rand.

Fixpoint isFlat_loop (obj : list (string * JSON)) (keys : list string) : bool :=
  match keys with
  | [] => true
  | key :: keys' =>
      let isObject :=
        match assoc key obj with
        | Some value => typeof_object value && negb (is_null value)
        | None => false
        end in
      if isObject then false else isFlat_loop obj keys'
  end.

Definition isFlatKeyValueObject (obj : list (string * JSON)) : bool :=
  isFlat_loop obj (List.map fst obj).

(** [body as Record<string, unknown>], applied once [body] is known to be a
    non-null, non-array object. *)
Definition as_record (v : JSON) : list (string * JSON) :=
  match v with
  | JObject fields => fields
  | _ => []
  end.

(** The two shape checks of [handleWebhook] on the parsed body. *)
Inductive Validation : Type := Accepted | NotObject | NestedValue.

Definition validate (v : JSON) : Validation :=
  if negb (typeof_object v) || is_null v || Array_isArray v then NotObject
  else if negb (isFlatKeyValueObject (as_record v)) then NestedValue
  else Accepted.

(** [handleWebhook]: the answer and the write issued on the way. The value
    of the put is the text [JSON.stringify(eventRecord)]; its [expirationTtl]
    and [metadata] options are not represented, and the put is taken to
    resolve. *)
Definition handleWebhook (request : Request) (env : Env) (amb : Ambient)
    : Response * list KVWrite :=
  let apiKey := toEffectiveKey (readApiKey request) in
  if negb (isApiKeyAllowed apiKey env) then
    (json_error 403 "Forbidden api_key", [])
  else
    match json request with
    | None => (json_error 400 "Invalid JSON", [])
    | Some body =>
        match validate body with
        | NotObject =>
            (json_error 400 "Body must be a flat JSON object of key-value pairs", [])
        | NestedValue =>
            (json_error 400
               "Body must be flat (no nested objects/arrays); only key-value pairs", [])
        | Accepted =>
            let eventRecord :=
              {| id := generateEventId amb;
                 apiKey := apiKey;
                 receivedAt := now_for_receivedAt amb;
                 body := body |} in
            let storageKey := makeStorageKey apiKey (id eventRecord) in
            ({| status := 200; payload := BodyIngested (id eventRecord) |},
             [KVPut storageKey (JSON_stringify eventRecord)])
        end
    end.

(** The [limit] of [handleListEvents] and [handlePanel]. *)
Definition effective_limit (limitParam : option string) : JsNumber :=
  Num.min (Num.max (Num.or (Number limitParam) (JsInt 50)) (JsInt 1)) (JsInt 200).

(** The options [listEventsForApiKey] passes to [list]. *)
Definition list_query (apiKey : string) (limit : JsNumber)
    (cursor : option string) : KVNamespaceListOptions :=
  {| opt_prefix := Some (apiKey +:+ ":");
     opt_cursor := cursor;
     opt_limit := Num.min (JsInt 1000) limit |}.

(** [results.filter((r) => r !== null)]. *)
Fixpoint drop_nulls (results : list (option EventRecord)) : list EventRecord :=
  match results with
  | [] => []
  | Some r :: rest => r :: drop_nulls rest
  | None :: rest => drop_nulls rest
  end.

Record Listing : Type := {
  listing_events : list EventRecord;
  listing_cursor : option string;
  listing_listComplete : bool;
}.

Definition listEventsForApiKey (env : Env) (apiKey : string)
    (limit : JsNumber) (cursor : option string) : Listing :=
  let page := kv_list (WEBHOOKS env) (list_query apiKey limit cursor) in
  let results := List.map (fun k => kv_get (WEBHOOKS env) k) (page_keys page) in
  let events := drop_nulls results in
  {| listing_events := events;
     listing_cursor :=
       match page with
       | ListIncomplete _ c => Some c
       | ListComplete _ => None
       end;
     listing_listComplete :=
       match page with
       | ListIncomplete _ _ => false
       | ListComplete _ => true
       end |}.

Definition handleListEvents (request : Request) (env : Env) : Response :=
  let selected := query_key request in
  let apiKey :=
    toEffectiveKey (match selected with Some s => Some s | None => readApiKey request end) in
  if negb (isApiKeyAllowed apiKey env) then json_error 403 "Forbidden api_key"
  else
    let limitParam := query_limit request in
    let cursorParam :=
      if present (query_cursor request) then query_cursor request else None in
    let limit := effective_limit limitParam in
    let r := listEventsForApiKey env apiKey limit cursorParam in
    {| status := 200;
       payload := BodyEvents (listing_events r) (listing_cursor r)
                    (listing_listComplete r) |}.

Definition maxScan : nat := 2000.

(** [name.slice(0, idx)], or the whole name when it has no [:]. *)
Definition key_prefix (name : string) : string :=
  match Str.indexOf ":" name with
  | None => name
  | Some idx => Str.slice 0 idx name
  end.

(** The body of the [for] loop over the keys of one page. *)
Definition scan_key (st : nat * list string) (name : string) : nat * list string :=
  let '(scanned, distinct) := st in
  let prefix := key_prefix name in
  (S scanned,
   if Str.nonempty prefix && negb (bool_decide (prefix = NO_KEY))
   then Set_add prefix distinct else distinct).

(** The options the scanner passes to [list]: no prefix, limit 1000. *)
Definition scan_query (cursor : option string) : KVNamespaceListOptions :=
  {| opt_prefix := None; opt_cursor := cursor; opt_limit := JsInt 1000 |}.

(** The [while] loop of [handleListDistinctKeys]; [fuel] bounds the number
    of [list] calls and [None] means it ran out. *)
Fixpoint scan_loop (fuel : nat) (env : Env) (cursor : option string)
    (scanned : nat) (distinct : list string) : option (list string) :=
  if negb (scanned <? maxScan)%nat then Some distinct
  else
    match fuel with
    | O => None
    | S fuel' =>
        let page := kv_list (WEBHOOKS env) (scan_query cursor) in
        let '(scanned', distinct') :=
          foldl scan_key (scanned, distinct) (page_keys page) in
        match page with
        | ListIncomplete _ c => scan_loop fuel' env (Some c) scanned' distinct'
        | ListComplete _ => Some distinct'
        end
    end.

Definition handleListDistinctKeys (fuel : nat) (env : Env) : option Response :=
  distinct ← scan_loop fuel env None 0%nat [];
  let keys := Array_sort localeCompare distinct in
  Some {| status := 200; payload := BodyKeys keys |}.

(** [handleDeleteEvents]: how it completes and the delete calls it issued.
    The keys are all derived before the first call is issued, so a
    conversion that throws leaves no call behind; the calls are all issued
    before [Promise.all] is awaited, so a call that rejects makes the handler
    throw after every call was issued. *)
Definition handleDeleteEvents (request : Request) (env : Env)
    : Completion * list KVWrite :=
  if negb (requireBasicAuth request env) then
    (Returned (json_error 401 "Unauthorized"), [])
  else
    match json request with
    | None => (Returned (json_error 400 "Invalid JSON"), [])
    | Some payload =>
        if negb (json_truthy payload) || negb (typeof_object payload) then
          (Returned (json_error 400 "Body must be JSON"), [])
        else
          let key := property "key" payload in
          let ids := property "ids" payload in
          match key with
          | Some (JBool _) | Some (JNumber _) | Some (JArray _) | Some (JObject _) =>
              (ThrownTypeError, [])
          | _ =>
              let apiKey :=
                toEffectiveKey
                  (match key with Some (JString s) => Some s | _ => None end) in
              if negb (isApiKeyAllowed apiKey env) then
                (Returned (json_error 403 "Forbidden api_key"), [])
              else
                match ids with
                | Some (JArray ((_ :: _) as ids)) =>
                    let limited := take 500 ids in
                    match mapM (fun id => makeStorageKey apiKey <$> ToString id)
                               limited with
                    | None => (ThrownTypeError, [])
                    | Some keysToDelete =>
                        let calls := List.map KVDelete keysToDelete in
                        if Promise_all (imap (kv_delete (WEBHOOKS env)) keysToDelete) then
                          (Returned {| status := 200;
                                       payload := BodyDeleted (length keysToDelete) |},
                           calls)
                        else (ThrownStoreError, calls)
                    end
                | _ =>
                    (Returned (json_error 400 "ids must be a non-empty array"), [])
                end
          end
    end.

End Operations.

(** ** Vocabulary of the statements *)

(** A scalar: string, number, boolean or null. *)
Definition scalar (v : JSON) : Prop :=
  match v with
  | JArray _ | JObject _ => False
  | _ => True
  end.

(** A plain object: neither an array nor null nor a primitive. *)
Definition plain_object (v : JSON) : Prop := ∃ fields, v = JObject fields.

(** The response is a rejection with the given message. *)
Definition rejects_with (r : Response) (code : nat) (message : string) : Prop :=
  status r = code ∧ payload r = BodyError message.

Definition is_put (w : KVWrite) : Prop :=
  match w with KVPut _ _ => True | KVDelete _ => False end.

(** [r] is [n] clamped into the range from 1 to 200. *)
Definition clamped_1_200 (n r : JsNumber) : Prop :=
  match n with
  | JsNaN => False
  | JsNegInf => r = JsInt 1
  | JsPosInf => r = JsInt 200
  | JsFin q =>
      ((q < Qc_of_Z 1)%Qc → r = JsInt 1) ∧
      ((Qc_of_Z 1 ≤ q ≤ Qc_of_Z 200)%Qc → r = JsFin q) ∧
      ((Qc_of_Z 200 < q)%Qc → r = JsInt 200)
  end.

(** [n] is a finite number between [lo] and [hi]. *)
Definition within (lo hi : Z) (n : JsNumber) : Prop :=
  match n with
  | JsFin q => (Qc_of_Z lo ≤ q ≤ Qc_of_Z hi)%Qc
  | _ => False
  end.

(** Zero as a number, whatever its text. *)
Definition is_zero (n : JsNumber) : Prop :=
  match n with
  | JsFin q => q = Qc_of_Z 0
  | _ => False
  end.

(** The store honours the limit of a [list] call: it answers with at most
    that many keys. *)
Definition honours_limit (kv : KVNamespace) (q : KVNamespaceListOptions) : Prop :=
  Num.leb (Num.of_nat (length (page_keys (kv_list kv q)))) (opt_limit q) = true.

(** The key has no value by the time it is fetched. *)
Definition vanished (kv : KVNamespace) (key : string) : Prop := kv_get kv key = None.

Global Instance vanished_dec kv key : Decision (vanished kv key).
Proof. unfold vanished. apply _. Defined.

(** The 36 symbols of a radix-36 numeral. *)
Definition alphabet36 : list ascii :=
  Str.to_list "0123456789abcdefghijklmnopqrstuvwxyz".

(** The character [Str.replace_colon_dot] leaves in place of [a]. *)
Definition dashed (a : ascii) : ascii :=
  if decide (a = ":"%char ∨ a = "."%char) then "-"%char else a.

(** The namespace a delete body names; [None] when [toEffectiveKey] throws
    on a [key] that is neither a string nor null nor missing. *)
Definition namespace_of (payload : JSON) : option string :=
  match property "key" payload with
  | None | Some JNull => Some (toEffectiveKey None)
  | Some (JString s) => Some (toEffectiveKey (Some s))
  | Some _ => None
  end.

(** The request gets past the guards of [handleDeleteEvents]: it is
    authenticated, its body parses to an object or an array, and the
    namespace it names passes the gate. [ids] is the [ids] field of the body. *)
Definition reaches_batch_delete `{JsHost} (request : Request) (env : Env)
    (namespace : string) (ids : option JSON) : Prop :=
  requireBasicAuth request env = true ∧
  ∃ payload,
    json request = Some payload ∧
    json_truthy payload = true ∧ typeof_object payload = true ∧
    namespace_of payload = Some namespace ∧
    isApiKeyAllowed namespace env = true ∧
    property "ids" payload = ids.

(** The [ids] field is missing, is not an array, or is the empty array. *)
Definition unusable_ids (ids : option JSON) : Prop :=
  ids = None ∨ (∃ v, ids = Some v ∧ Array_isArray v = false) ∨
  ids = Some (JArray []).

Definition is_delete (w : KVWrite) : Prop :=
  match w with KVDelete _ => True | KVPut _ _ => False end.

(** ** A reference host

    One host, for the examples: it agrees with ECMAScript on the arguments
    the examples apply it to. [Number] is reproduced on blank text, signed
    decimal integers below 2^53 and [Infinity], and reads any other text as
    NaN; number to string conversion is reproduced on NaN, the infinities and
    integers below 10^21; [localeCompare] is the order of code units, which
    is the collation order between words of lower-case ASCII letters; [btoa]
    is base 64. *)
Module Reference.

Fixpoint digits_value (acc : Z) (l : list ascii) : option Z :=
  match l with
  | [] => Some acc
  | c :: l' =>
      d ← Ascii.is_nat c;
      digits_value (10 * acc + Z.of_nat d) l'
  end.

Definition unsigned_literal (l : list ascii) : option JsNumber :=
  match l with
  | [] => None
  | _ =>
      if bool_decide (l = Str.to_list "Infinity") then Some JsPosInf
      else JsInt <$> digits_value 0 l
  end.

Definition negate (n : JsNumber) : JsNumber :=
  match n with
  | JsPosInf => JsNegInf
  | JsNegInf => JsPosInf
  | JsFin q => JsFin (- q)%Qc
  | JsNaN => JsNaN
  end.

Definition StringToNumber (s : string) : JsNumber :=
  match Str.to_list (Str.trim s) with
  | [] => JsInt 0
  | "-"%char :: l => default JsNaN (negate <$> unsigned_literal l)
  | "+"%char :: l => default JsNaN (unsigned_literal l)
  | l => default JsNaN (unsigned_literal l)
  end.

Definition NumberToString (n : JsNumber) : string :=
  match n with
  | JsNaN => "NaN"
  | JsPosInf => "Infinity"
  | JsNegInf => "-Infinity"
  | JsFin q =>
      match Qden (this q) with
      | 1%positive => pretty (Qnum (this q))
      | d => pretty (Qnum (this q)) +:+ "/" +:+ pretty (Z.pos d)
      end
  end.

Definition localeCompare (a b : string) : comparison := String.compare a b.

Definition base64 (n : N) : ascii :=
  nth (N.to_nat n)
    (Str.to_list "ABCDEFGHIJKLMNOPQRSTUVWXYZabcdefghijklmnopqrstuvwxyz0123456789+/")
    "="%char.

Fixpoint btoa_codes (l : list N) : list ascii :=
  match l with
  | [] => []
  | [a] =>
      [base64 (a / 4); base64 (a mod 4 * 16); "="; "="]%char%N
  | [a; b] =>
      [base64 (a / 4); base64 (a mod 4 * 16 + b / 16);
       base64 (b mod 16 * 4); "="%char]%N
  | a :: b :: c :: rest =>
      [base64 (a / 4); base64 (a mod 4 * 16 + b / 16);
       base64 (b mod 16 * 4 + c / 64); base64 (c mod 64)]%N
      ++ btoa_codes rest
  end.

Definition btoa (s : string) : string :=
  Str.of_list (btoa_codes (N_of_ascii <$> Str.to_list s)).

Definition host : JsHost :=
  Build_JsHost StringToNumber NumberToString localeCompare btoa.

End Reference.

(** ** Sample data for the examples *)
Module Sample.

(** A store of four keys. Without a prefix it lists three of them, then
    the fourth; under the prefix ["demo:"] it lists the two keys of that
    namespace; the value of ["demo:2024-b"] has vanished by the time it is
    fetched; it rejects the delete of the key ["demo:frozen"] and resolves
    every other. *)
Definition event (namespace name : string) : EventRecord :=
  {| id := name; apiKey := namespace; receivedAt := "2024-01-15T10:30:00.000Z";
     body := JObject [("ping", JString "pong")] |}.

Definition kv : KVNamespace :=
  {| kv_list := λ q,
       match opt_prefix q, opt_cursor q with
       | None, None =>
           ListIncomplete ["NO-KEY:2024-x"; "demo:2024-a"; "demo:2024-b"] "page-2"
       | None, Some _ => ListComplete ["other:2024-c"]
       | Some p, _ =>
           if bool_decide (p = "demo:")
           then ListComplete ["demo:2024-a"; "demo:2024-b"]
           else ListComplete []
       end;
     kv_get := λ key,
       if bool_decide (key = "demo:2024-a") then Some (event "demo" "2024-a")
       else if bool_decide (key = "other:2024-c") then Some (event "other" "2024-c")
       else None;
     kv_delete := λ _ key, negb (bool_decide (key = "demo:frozen")) |}.

Definition env (allow : option string) : Env :=
  {| WEBHOOKS := kv;
     ALLOWED_API_KEYS := allow;
     RETENTION_DAYS := None;
     PANEL_USER := Some "admin";
     PANEL_PASS := Some "secret" |}.

(** A request with no header and no parameter. *)
Definition bare : Request :=
  {| header_key := None; header_x_api_key := None;
     header_authorization := None;
     query_api_key := None; query_key := None;
     query_limit := None; query_cursor := None;
     json := None |}.

(** A [GET] of the events of namespace [key] under [?limit=limit]. *)
Definition listing_of (key limit : string) : Request :=
  {| header_key := None; header_x_api_key := None;
     header_authorization := None;
     query_api_key := None; query_key := Some key;
     query_limit := Some limit; query_cursor := None;
     json := None |}.

(** An authenticated [DELETE] with the given body. *)
Definition delete_with (payload : JSON) : Request :=
  {| header_key := None; header_x_api_key := None;
     header_authorization := Some "Basic YWRtaW46c2VjcmV0";
     query_api_key := None; query_key := None;
     query_limit := None; query_cursor := None;
     json := Some payload |}.

(** A [POST] under namespace [key] with the given body. *)
Definition post_with (key : string) (payload : JSON) : Request :=
  {| header_key := Some key; header_x_api_key := None;
     header_authorization := None;
     query_api_key := None; query_key := None;
     query_limit := None; query_cursor := None;
     json := Some payload |}.

(** The clock at half past ten, and a random fraction of one half, whose
    radix-36 text is ["0.i"]. *)
Definition half : Ambient :=
  {| now_for_id := "2024-01-15T10:30:00.000Z";
     now_for_receivedAt := "2024-01-15T10:30:00.000Z";
     random_digits := [18%nat] |}.

(** The same clock, and a fraction with eleven radix-36 digits. *)
Definition eleven : Ambient :=
  {| now_for_id := "2024-01-15T10:30:00.000Z";
     now_for_receivedAt := "2024-01-15T10:30:00.000Z";
     random_digits := [4; 15; 33; 7; 0; 21; 9; 30; 2; 11; 26]%nat |}.

End Sample.

(** ** The claims the code departs from, as the specification words them *)

(** The limit as the specification words it: 50 when the parameter is absent
    or does not parse, and the parsed number clamped otherwise. *)
Definition limit_as_specified `{JsHost} (limitParam : option string) : Prop :=
  (limitParam = None ∨ Number limitParam = JsNaN →
     effective_limit limitParam = JsInt 50) ∧
  (limitParam ≠ None → Number limitParam ≠ JsNaN →
     clamped_1_200 (Number limitParam) (effective_limit limitParam)).

Definition alphanumeric (c : ascii) : bool :=
  let n := N_of_ascii c in
  ((48 <=? n) && (n <=? 57) || (65 <=? n) && (n <=? 90) ||
   (97 <=? n) && (n <=? 122))%N.

(** The id as the specification words it: the timestamp with every
    character that is not alphanumeric replaced, an underscore, and eight
    characters of the 36-symbol alphabet. *)
Definition id_as_specified (amb : Ambient) : Prop :=
  ∃ stamp suffix,
    generateEventId amb = stamp +:+ "_" +:+ suffix ∧
    String.length stamp = String.length (now_for_id amb) ∧
    (∀ i c, Str.to_list (now_for_id amb) !! i = Some c →
            alphanumeric c = false → Str.to_list stamp !! i ≠ Some c) ∧
    String.length suffix = 8%nat ∧
    (∀ c, c ∈ Str.to_list suffix → c ∈ alphabet36).

(** The conversion of the value to text throws: the value is an object
    with an own property named [toString], or an array that holds such a
    value. *)
Inductive unprintable : JSON → Prop :=
  | unprintable_object fields :
      is_Some (assoc "toString" fields) → unprintable (JObject fields)
  | unprintable_array elems e :
      e ∈ elems → unprintable e → unprintable (JArray elems).

(** The storage key derived from one entry of [ids]; [None] when its
    conversion to text throws. *)
Definition derived_key `{JsHost} (namespace : string) (id : JSON)
    : option string :=
  makeStorageKey namespace <$> ToString id.

(** The storage keys derived from the first 500 entries of [ids]; [None]
    when the conversion of one of them throws. *)
Definition derived_keys `{JsHost} (namespace : string) (ids : list JSON)
    : option (list string) :=
  mapM (derived_key namespace) (take 500 ids).

(** The store resolves the delete call of every one of the keys. *)
Definition store_accepts (kv : KVNamespace) (keys : list string) : Prop :=
  ∀ i k, keys !! i = Some k → kv_delete kv i k = true.

(** What batch delete does with the [ids] array of a request that reaches
    it: the delete calls issued are those of the keys derived from the first
    min(|ids|, 500) entries, their number is returned as [deleted], the
    derived keys are gone from the store and every other key is untouched,
    in whatever order the calls complete. *)
Definition deletes_first_500 `{JsHost} (request : Request) (env : Env)
    (namespace : string) (ids : list JSON)
    (store : gmap string EventRecord) : Prop :=
  ∃ keys,
    derived_keys namespace ids = Some keys ∧
    let '(completion, writes) := handleDeleteEvents request env in
    writes = KVDelete <$> keys ∧
    length keys = (length ids `min` 500)%nat ∧
    completion =
      Returned {| status := 200;
                  payload := BodyDeleted (length ids `min` 500)%nat |} ∧
    (∀ k, k ∈ keys → kv_run writes store !! k = None) ∧
    (∀ k, k ∉ keys → kv_run writes store !! k = store !! k) ∧
    (∀ i id key, (500 ≤ i)%nat → ids !! i = Some id →
       derived_key namespace id = Some key → key ∉ keys →
       kv_run writes store !! key = store !! key) ∧
    (∀ completed, completed ≡ₚ writes →
       kv_run completed store = kv_run writes store).

(** The pages the namespace scanner fetches, starting at [cursor] with
    [scanned] keys already seen: it asks for a page only while fewer than
    [maxScan] keys have been scanned, and for a further one only after a page
    the store reported incomplete, at the cursor that page carried. *)
Inductive scan_pages (kv : KVNamespace)
    : option string → nat → list KVNamespaceListResult → Prop :=
  | scan_budget_spent cursor scanned :
      (maxScan ≤ scanned)%nat →
      scan_pages kv cursor scanned []
  | scan_complete cursor scanned keys :
      (scanned < maxScan)%nat →
      kv_list kv (scan_query cursor) = ListComplete keys →
      scan_pages kv cursor scanned [ListComplete keys]
  | scan_incomplete cursor scanned keys next pages :
      (scanned < maxScan)%nat →
      kv_list kv (scan_query cursor) = ListIncomplete keys next →
      scan_pages kv (Some next) (scanned + length keys) pages →
      scan_pages kv cursor scanned (ListIncomplete keys next :: pages).

(** [x] is the part of [name] before its first [:], and the whole of
    [name] when it has none. *)
Definition before_first_colon (name x : string) : Prop :=
  ((":"%char ∉ Str.to_list name) ∧ x = name) ∨
  ((":"%char ∉ Str.to_list x) ∧ ∃ rest, name = x +:+ ":" +:+ rest).

(** The key names of the fetched pages, in the order they are scanned. *)
Definition scanned_names (pages : list KVNamespaceListResult) : list string :=
  concat (page_keys <$> pages).

(** Every page the store reports incomplete carries at least one key. *)
Definition progresses (kv : KVNamespace) : Prop :=
  ∀ q keys next, kv_list kv q = ListIncomplete keys next → keys ≠ [].

(** What one scanned key adds to the set of distinct prefixes. *)
Definition add_prefix (distinct : list string) (name : string) : list string :=
  (scan_key (0%nat, distinct) name).2.

(** ** Vocabulary of the further properties *)

(** A number that is not finite: NaN or an infinity. *)
Definition not_finite (v : JSON) : Prop :=
  match v with
  | JNumber (JsFin _) => False
  | JNumber _ => True
  | _ => False
  end.

(** [x'] is what is read back of the scalar [x] once it was stored as
    text: [null] for a number that is not finite, and [x] otherwise. *)
Definition read_back (x x' : JSON) : Prop :=
  (not_finite x → x' = JNull) ∧ (¬ not_finite x → x' = x).

(** Only white space, possibly nothing. *)
Definition blank (s : string) : Prop :=
  Forall (λ a, Str.is_white a = true) (Str.to_list s).

(** No white space at either end. *)
Definition trimmed (s : string) : Prop :=
  (∀ a, head (Str.to_list s) = Some a → Str.is_white a = false) ∧
  (∀ a, last (Str.to_list s) = Some a → Str.is_white a = false).

(** [s] begins with [p]. *)
Definition starts_with (p s : string) : Prop := ∃ rest, s = p +:+ rest.

(** The text has no [:]. *)
Definition colon_free (s : string) : Prop := Str.indexOf ":" s = None.

(** The store answers a [list] call only with keys that begin with the
    prefix it was asked for. *)
Definition honours_prefix (kv : KVNamespace) (q : KVNamespaceListOptions) : Prop :=
  ∀ p, opt_prefix q = Some p → Forall (starts_with p) (page_keys (kv_list kv q)).

(** ** HTML escaping *)

Module Html.

(** [s.replaceAll(c, replacement)] for a one-character pattern. *)
Fixpoint replaceAll (c : ascii) (replacement : string) (s : string) : string :=
  match s with
  | EmptyString => EmptyString
  | String a s' =>
      if decide (a = c) then replacement +:+ replaceAll c replacement s'
      else String a (replaceAll c replacement s')
  end.

(** The double quote and the apostrophe. *)
Definition quote : ascii := "034"%char.
Definition apostrophe : ascii := "039"%char.

Definition escapeHtml (input : string) : string :=
  replaceAll apostrophe "&#039;"
    (replaceAll quote "&quot;"
       (replaceAll ">" "&gt;"
          (replaceAll "<" "&lt;"
             (replaceAll "&" "&amp;" input)))).

(** What one character of the input becomes. *)
Definition entity (a : ascii) : string :=
  if decide (a = "&"%char) then "&amp;"
  else if decide (a = "<"%char) then "&lt;"
  else if decide (a = ">"%char) then "&gt;"
  else if decide (a = quote) then "&quot;"
  else if decide (a = apostrophe) then "&#039;"
  else String a "".

(** The escaping done in one pass, character by character. *)
Fixpoint escape_each (s : string) : string :=
  match s with
  | EmptyString => EmptyString
  | String a s' => entity a +:+ escape_each s'
  end.

(** A character HTML gives a meaning to. *)
Definition special (a : ascii) : Prop :=
  a = "&"%char ∨ a = "<"%char ∨ a = ">"%char ∨ a = quote ∨ a = apostrophe.

End Html.

(** ** The router *)

(** What [fetch] reads of the request besides what the handlers read: the
    method and the path of its URL. *)
Record FetchEvent : Type := {
  method : string;
  pathname : string;
  incoming : Request;
}.

(** The body of an answer. [CaughtBody] is the JSON object whose [error] is
    the message of the exception [fetch] caught; [ScriptBody] is the text of
    an imported client script; [PanelBody] is the page [renderPanelHtml]
    produces, of which the limit it was given is kept. *)
Inductive HttpBody : Type :=
  | NullBody
  | TextBody (text : string)
  | JsonBody (value : ResponseBody)
  | CaughtBody
  | ScriptBody (asset : string)
  | PanelBody (limit : JsNumber).

(** An answer with the headers the worker sets, by lower-case name. Headers
    the runtime adds on its own are not represented. *)
Record HttpResponse : Type := {
  http_status : nat;
  http_headers : gmap string string;
  http_body : HttpBody;
}.

Definition json_headers : gmap string string :=
  {[ "content-type" := "application/json" ]}.

(** A handler's JSON answer: every JSON answer of the handlers carries the
    one header [Content-Type: application/json]. *)
Definition json_response (r : Response) : HttpResponse :=
  {| http_status := status r;
     http_headers := json_headers;
     http_body := JsonBody (payload r) |}.

Definition buildCorsResponse (response : HttpResponse) : HttpResponse :=
  let headers := http_headers response in
  let headers := <["access-control-allow-origin" := "*"]> headers in
  let headers := <["access-control-allow-methods" := "POST, GET, OPTIONS"]> headers in
  let headers :=
    <["access-control-allow-headers" := "Content-Type, key, Authorization"]> headers in
  {| http_status := http_status response;
     http_headers := headers;
     http_body := http_body response |}.

(** The [error] answer of [requireBasicAuth(request, env, isHtml)]. *)
Definition unauthorized (isHtml : bool) : HttpResponse :=
  let realm :=
    "Basic realm=" +:+ String Html.quote ("panel" +:+ String Html.quote "") in
  let headers := <["www-authenticate" := realm]> (∅ : gmap string string) in
  let headers := <["cache-control" := "no-store"]> headers in
  let headers :=
    if isHtml then <["content-type" := "text/html; charset=utf-8"]> headers
    else headers in
  {| http_status := 401;
     http_headers := headers;
     http_body := if isHtml then TextBody "Unauthorized"
                  else JsonBody (BodyError "Unauthorized") |}.

Definition script_response (asset : string) : HttpResponse :=
  {| http_status := 200;
     http_headers :=
       <["cache-control" := "no-store"]>
         {[ "content-type" := "application/javascript; charset=utf-8" ]};
     http_body := ScriptBody asset |}.

Section Router.
Context `{host : JsHost}.

Definition handlePanel (request : Request) (env : Env) : HttpResponse :=
  if negb (requireBasicAuth request env) then unauthorized true
  else
    let limit := effective_limit (query_limit request) in
    {| http_status := 200;
       http_headers :=
         <["cache-control" := "no-store"]>
           {[ "content-type" := "text/html; charset=utf-8" ]};
       http_body := PanelBody limit |}.

(** [fetch]: the answer and the store writes issued on the way. [fuel]
    passes to [handleListDistinctKeys]. The [catch] of the delete route
    answers 500 to whatever [handleDeleteEvents] throws. The handlers of the
    two read routes throw only when a [list] or a [get] call rejects: these
    calls are taken to resolve, so the [catch] of these routes, which
    answers 200 with an empty page and the message, has no branch here.
    The webhook route has no [catch]; its put is taken to resolve. *)
Definition fetch (fuel : nat) (ev : FetchEvent) (env : Env) (amb : Ambient)
    : option (HttpResponse * list KVWrite) :=
  let request := incoming ev in
  let at_path (p : string) := bool_decide (pathname ev = p) in
  let by_method (m : string) := bool_decide (method ev = m) in
  if by_method "OPTIONS" then
    Some (buildCorsResponse
            {| http_status := 204; http_headers := ∅; http_body := NullBody |},
          [])
  else if at_path "/" || at_path "/panel" then
    Some (handlePanel request env, [])
  else if at_path "/panel.js" && by_method "GET" then
    Some (script_response "panel.client.js", [])
  else if at_path "/panel-ext.js" && by_method "GET" then
    Some (script_response "panel-ext.client.js", [])
  else if at_path "/api/events" && by_method "GET" then
    Some (json_response (handleListEvents request env), [])
  else if at_path "/api/events" && by_method "DELETE" then
    match handleDeleteEvents request env with
    | (Returned r, writes) =>
        Some (if requireBasicAuth request env then json_response r
              else unauthorized false,
              writes)
    | (ThrownTypeError, writes) | (ThrownStoreError, writes) =>
        Some ({| http_status := 500;
                 http_headers := json_headers;
                 http_body := CaughtBody |},
              writes)
    end
  else if at_path "/api/keys" && by_method "GET" then
    r ← handleListDistinctKeys fuel env;
    Some (json_response r, [])
  else if (at_path "/webhook" || at_path "/api/webhook") && by_method "POST" then
    let '(r, writes) := handleWebhook request env amb in
    Some (buildCorsResponse (json_response r), writes)
  else
    Some ({| http_status := 404; http_headers := ∅;
             http_body := TextBody "Not Found" |},
          []).

End Router.

(** The two routes that reach the store with a write. *)
Definition webhook_route (ev : FetchEvent) : Prop :=
  method ev = "POST" ∧ (pathname ev = "/webhook" ∨ pathname ev = "/api/webhook").

Definition delete_route (ev : FetchEvent) : Prop :=
  method ev = "DELETE" ∧ pathname ev = "/api/events".

(** The [list] call [handleListEvents] makes for a request that passes the
    gate. *)
Definition listing_query `{JsHost} (request : Request) : KVNamespaceListOptions :=
  list_query
    (toEffectiveKey (match query_key request with
                     | Some s => Some s
                     | None => readApiKey request
                     end))
    (effective_limit (query_limit request))
    (if present (query_cursor request) then query_cursor request else None).

(** ** Sample requests for the router *)
Module Routes.

Definition post_webhook : FetchEvent :=
  {| method := "POST"; pathname := "/webhook";
     incoming := Sample.post_with "demo" (JObject [("ping", JString "pong")]) |}.

Definition get_events : FetchEvent :=
  {| method := "GET"; pathname := "/api/events";
     incoming := Sample.listing_of "demo" "2" |}.

(** An authenticated delete whose [key] is the number 5. *)
Definition delete_numeric_key : FetchEvent :=
  {| method := "DELETE"; pathname := "/api/events";
     incoming :=
       Sample.delete_with
         (JObject [("key", JNumber (JsInt 5)); ("ids", JArray [JString "2024-a"])]) |}.

End Routes.

(** * Payload validator *)

Lemma typeof_object_not_null_iff (v : JSON) :
  typeof_object v && negb (is_null v) = true ↔ ¬ scalar v.
Proof. destruct v; simpl; split; intros; try done; tauto. Qed.

Lemma isFlat_loop_spec (obj : list (string * JSON)) (keys : list string) :
  isFlat_loop obj keys = true ↔
  ∀ k x, k ∈ keys → assoc k obj = Some x → scalar x.
Proof.
  induction keys as [|key keys IH]; simpl.
  - split; [intros _ k x Hk; by apply elem_of_nil in Hk | done].
  - destruct (assoc key obj) as [value|] eqn:Hkey.
    + destruct (typeof_object value && negb (is_null value)) eqn:Hobj.
      * split; [done|]. intros Hall.
        apply typeof_object_not_null_iff in Hobj.
        destruct Hobj. apply (Hall key); [left | done].
      * rewrite IH. split.
        -- intros Hall k x [->|Hk]%elem_of_cons Hx; [|by eauto].
           rewrite Hkey in Hx. injection Hx as <-.
           destruct value; simpl in *; done.
        -- intros Hall k x Hk. apply Hall. by right.
    + rewrite IH. split.
      * intros Hall k x [->|Hk]%elem_of_cons Hx; [congruence | by eauto].
      * intros Hall k x Hk. apply Hall. by right.
Qed.

Lemma assoc_Some_key (name : string) (obj : list (string * JSON)) (x : JSON) :
  assoc name obj = Some x → name ∈ List.map fst obj.
Proof.
  induction obj as [|[k v] obj IH]; simpl; [done|].
  case_decide; [intros _; subst; left | intros ?; right; auto].
Qed.

Lemma isFlatKeyValueObject_spec (obj : list (string * JSON)) :
  isFlatKeyValueObject obj = true ↔ ∀ k x, assoc k obj = Some x → scalar x.
Proof.
  unfold isFlatKeyValueObject. rewrite isFlat_loop_spec. split.
  - intros Hall k x Hx. eapply Hall; eauto using assoc_Some_key.
  - intros Hall k x _. apply Hall.
Qed.

Lemma validate_Accepted (v : JSON) :
  validate v = Accepted ↔
  plain_object v ∧ ∀ k x, property k v = Some x → scalar x.
Proof.
  unfold validate, plain_object.
  destruct v as [| | | | elems | fields]; simpl;
    try (split; [done | by intros [[? ?] _]]).
  destruct (isFlatKeyValueObject fields) eqn:Hflat; simpl.
  - split; [intros _ | done]. split; [by eexists|].
    by apply isFlatKeyValueObject_spec.
  - split; [done|]. intros [_ Hall].
    apply isFlatKeyValueObject_spec in Hall. congruence.
Qed.

Lemma validate_NotObject (v : JSON) :
  validate v = NotObject ↔ ¬ plain_object v.
Proof.
  unfold validate, plain_object.
  destruct v as [| | | | elems | fields]; simpl;
    try (split; [by intros _ [? ?] | done]).
  split.
  - by destruct (isFlatKeyValueObject fields).
  - intros Hno. destruct Hno. by eexists.
Qed.

Lemma validate_NestedValue (v : JSON) :
  validate v = NestedValue ↔
  plain_object v ∧ ∃ k x, property k v = Some x ∧ ¬ scalar x.
Proof.
  split.
  - intros Hv.
    assert (plain_object v) as Hobj.
    { destruct v; try done. by eexists. }
    split; [done|]. destruct Hobj as [fields ->].
    unfold validate in Hv. simpl in Hv.
    destruct (isFlatKeyValueObject fields) eqn:Hflat; [done|].
    clear Hv. unfold isFlatKeyValueObject in Hflat.
    assert (∀ keys, isFlat_loop fields keys = false →
              ∃ k x, assoc k fields = Some x ∧ ¬ scalar x) as Hloop.
    { induction keys as [|key keys IH]; simpl; [done|].
      destruct (assoc key fields) as [value|] eqn:Hkey; [|done].
      destruct (typeof_object value && negb (is_null value)) eqn:Hnest; [|done].
      intros _. exists key, value. split; [done|].
      by apply typeof_object_not_null_iff. }
    by apply Hloop in Hflat.
  - intros [[fields ->] (k & x & Hx & Hnest)].
    unfold validate. simpl.
    destruct (isFlatKeyValueObject fields) eqn:Hflat; [|done].
    destruct Hnest. eapply isFlatKeyValueObject_spec; eauto.
Qed.

(** Whatever the request, [handleWebhook] issues either nothing or exactly
    one put, and it issues the put exactly when it answers 200. *)
Lemma handleWebhook_writes (request : Request) (env : Env) (amb : Ambient) :
  let '(response, writes) := handleWebhook request env amb in
  (status response = 200%nat ∧ ∃ key value, writes = [KVPut key value]) ∨
  (status response ≠ 200%nat ∧ writes = []).
Proof.
  unfold handleWebhook.
  destruct (negb (isApiKeyAllowed _ env)); [right; by split|].
  destruct (json request) as [v|]; [|right; by split].
  destruct (validate v); [left | right | right]; split; simpl; eauto; done.
Qed.

(** C1. The payload validator accepts a parsed JSON value exactly when it is
    a plain object (not an array, not null) whose every property value is a
    scalar; a value that is not a plain object is rejected as NotObject, a
    plain object with an object or array among its property values is
    rejected as NestedValue; [handleWebhook] answers the two rejections with
    their 400 messages when the body reaches the validator, and whenever it
    answers anything but 200 it has issued no write, so the store is
    unchanged. *)
Theorem C1_validator_flat_objects_only (v : JSON) :
  (validate v = Accepted ↔
     plain_object v ∧ ∀ k x, property k v = Some x → scalar x) ∧
  (validate v = NotObject ↔ ¬ plain_object v) ∧
  (validate v = NestedValue ↔
     plain_object v ∧ ∃ k x, property k v = Some x ∧ ¬ scalar x) ∧
  (∀ request env amb,
     json request = Some v →
     isApiKeyAllowed (toEffectiveKey (readApiKey request)) env = true →
     let response := (handleWebhook request env amb).1 in
     (validate v = NotObject →
        rejects_with response 400
          "Body must be a flat JSON object of key-value pairs") ∧
     (validate v = NestedValue →
        rejects_with response 400
          "Body must be flat (no nested objects/arrays); only key-value pairs") ∧
     (validate v = Accepted → status response = 200%nat)) ∧
  (∀ request env amb store,
     let '(response, writes) := handleWebhook request env amb in
     (status response ≠ 200%nat ∨
      (json request = Some v ∧ validate v ≠ Accepted)) →
     (∀ w, w ∈ writes → ¬ is_put w) ∧ writes = [] ∧
     kv_run writes store = store).
Proof.
  split; [apply validate_Accepted|].
  split; [apply validate_NotObject|].
  split; [apply validate_NestedValue|].
  split.
  - intros request env amb Hjson Hgate. unfold handleWebhook.
    rewrite Hgate, Hjson. simpl.
    destruct (validate v); repeat split; intros; simpl; congruence.
  - intros request env amb store.
    pose proof (handleWebhook_writes request env amb) as Hw.
    destruct (handleWebhook request env amb) as [response writes] eqn:Hrun.
    intros Hrej.
    assert (writes = []) as ->.
    { destruct Hw as [[H200 _]|[_ ->]]; [|done].
      destruct Hrej as [Hrej|[Hjson Hrej]]; [done|].
      unfold handleWebhook in Hrun. rewrite Hjson in Hrun.
      destruct (negb (isApiKeyAllowed _ env)); [by injection Hrun as <- <-|].
      destruct (validate v); [done | by injection Hrun as <- <- ..]. }
    split; [|done]. intros w Hw'. by apply elem_of_nil in Hw'.
Qed.

(** * Numbers *)

Lemma Qc_of_Z_this (z : Z) : this (Qc_of_Z z) = inject_Z z.
Proof. reflexivity. Qed.

Lemma Qc_leb_le (x y : Qc) : Qle_bool (this x) (this y) = true ↔ (x ≤ y)%Qc.
Proof. apply Qle_bool_iff. Qed.

Lemma Qc_leb_gt (x y : Qc) : Qle_bool (this x) (this y) = false ↔ (y < x)%Qc.
Proof.
  rewrite <-not_true_iff_false, Qc_leb_le. split.
  - apply Qcnot_le_lt.
  - apply Qclt_not_le.
Qed.

Lemma Qc_of_Z_le (a b : Z) : (Qc_of_Z a ≤ Qc_of_Z b)%Qc ↔ (a ≤ b)%Z.
Proof. unfold Qcle. rewrite !Qc_of_Z_this. by rewrite <-Zle_Qle. Qed.

Lemma Qc_of_Z_lt (a b : Z) : (Qc_of_Z a < Qc_of_Z b)%Qc ↔ (a < b)%Z.
Proof. unfold Qclt. rewrite !Qc_of_Z_this. by rewrite <-Zlt_Qlt. Qed.

Lemma truthy_false_iff (n : JsNumber) :
  Num.truthy n = false ↔ n = JsNaN ∨ is_zero n.
Proof.
  destruct n as [| | |q]; simpl; try (split; [done | by intros [?|?]]).
  - split; [by left | done].
  - rewrite negb_false_iff, Qeq_bool_iff. split.
    + intros Hq. right. by apply Qc_is_canon.
    + intros [?| ->]; [done | reflexivity].
Qed.

Lemma leb_JsInt (a b : Z) : Num.leb (JsInt a) (JsInt b) = bool_decide (a ≤ b)%Z.
Proof.
  unfold Num.leb, JsInt. case_bool_decide as Hab.
  - by apply Qc_leb_le, Qc_of_Z_le.
  - apply Qc_leb_gt, Qc_of_Z_lt. lia.
Qed.

Lemma leb_trans (a b c : JsNumber) :
  Num.leb a b = true → Num.leb b c = true → Num.leb a c = true.
Proof.
  destruct a as [| | |x], b as [| | |y], c as [| | |z]; simpl; try done.
  rewrite !Qc_leb_le. apply Qcle_trans.
Qed.

Lemma min_leb_r (a b : JsNumber) :
  Num.leb (Num.min a b) b = true ∨ Num.min a b = JsNaN.
Proof.
  destruct a as [| | |x], b as [| | |y]; simpl; auto.
  - left. apply Qc_leb_le, Qcle_refl.
  - destruct (Qle_bool (this x) (this y)) eqn:Hxy; simpl; left.
    + done.
    + apply Qc_leb_le, Qcle_refl.
Qed.

(** The value of [Math.min(Math.max(x, 1), 200)] on a number that is not
    NaN. *)
Lemma min_max_clamps (n : JsNumber) :
  n ≠ JsNaN →
  clamped_1_200 n (Num.min (Num.max n (JsInt 1)) (JsInt 200)) ∧
  within 1 200 (Num.min (Num.max n (JsInt 1)) (JsInt 200)).
Proof.
  assert (within 1 200 (JsInt 1)) as H1.
  { simpl. rewrite !Qc_of_Z_le. lia. }
  assert (within 1 200 (JsInt 200)) as H200.
  { simpl. rewrite !Qc_of_Z_le. lia. }
  destruct n as [| | |q]; [done| | |]; intros _.
  - by vm_compute.
  - split; [by vm_compute | done].
  - unfold Num.max, Num.min, Num.leb, JsInt.
    destruct (Qle_bool (this q) (this (Qc_of_Z 1))) eqn:Hq1.
    + replace (Qle_bool (this (Qc_of_Z 1)) (this (Qc_of_Z 200))) with true
        by (symmetry; by apply Qc_leb_le, Qc_of_Z_le).
      apply Qc_leb_le in Hq1. split; [|done]. simpl.
      split; [done|]. split.
      * intros [Hle _]. f_equal. by apply Qcle_antisym.
      * intros Hgt. exfalso. apply (Qclt_not_le _ _ Hgt).
        etrans; [done|]. by apply Qc_of_Z_le.
    + apply Qc_leb_gt in Hq1.
      destruct (Qle_bool (this q) (this (Qc_of_Z 200))) eqn:Hq200.
      * apply Qc_leb_le in Hq200. simpl. split.
        -- split; [|split]; [|done|].
           ++ intros Hlt. exfalso. by apply (Qclt_not_le _ _ Hq1), Qclt_le_weak.
           ++ intros Hgt. exfalso. by apply (Qclt_not_le _ _ Hgt).
        -- split; [by apply Qclt_le_weak | done].
      * apply Qc_leb_gt in Hq200. split; [|done]. simpl.
        split; [|split]; [| |done].
        -- intros Hlt. exfalso. by apply (Qclt_not_le _ _ Hq1), Qclt_le_weak.
        -- intros [_ Hle]. exfalso. by apply (Qclt_not_le _ _ Hq200).
Qed.

(** * Listing service *)

Lemma drop_nulls_omap (kv : KVNamespace) (keys : list string) :
  drop_nulls (List.map (fun k => kv_get kv k) keys) = omap (kv_get kv) keys.
Proof.
  induction keys as [|k keys IH]; simpl; [done|].
  destruct (kv_get kv k); simpl; by rewrite IH.
Qed.

Lemma omap_length_le {A B} (f : A → option B) (l : list A) :
  (length (omap f l) ≤ length l)%nat.
Proof. induction l as [|x l IH]; csimpl; [done|]. destruct (f x); csimpl; lia. Qed.

Lemma omap_length_vanished (kv : KVNamespace) (keys : list string) :
  (length (omap (kv_get kv) keys) + length (filter (vanished kv) keys))%nat
  = length keys.
Proof.
  induction keys as [|k keys IH]; csimpl; [done|].
  rewrite filter_cons.
  destruct (decide (vanished kv k)) as [Hk|Hk]; unfold vanished in Hk.
  - rewrite Hk. csimpl. lia.
  - destruct (kv_get kv k); [csimpl; lia | done].
Qed.

(** C3 (amended). The effective listing limit is 50 when the [limit]
    parameter is absent, when it is no number (NaN) and when it is
    numerically zero; for every other value it is that value clamped into
    the range from 1 to 200. It always lies between 1 and 200, the store is
    queried with exactly that limit, which is therefore at least 1 and at
    most 1000, and a request that passes the gate is answered with the page
    listed under that limit. *)
Theorem C3_effective_limit_default_and_clamp `{host : JsHost}
    (limitParam : option string) :
  let n := Number limitParam in
  let limit := effective_limit limitParam in
  (limitParam = None → limit = JsInt 50) ∧
  (n = JsNaN ∨ is_zero n → limit = JsInt 50) ∧
  (n ≠ JsNaN → ¬ is_zero n → clamped_1_200 n limit) ∧
  within 1 200 limit ∧
  (∀ apiKey cursor,
     opt_limit (list_query apiKey limit cursor) = limit ∧
     within 1 1000 (opt_limit (list_query apiKey limit cursor))) ∧
  (∀ request env,
     query_limit request = limitParam →
     let apiKey :=
       toEffectiveKey (match query_key request with
                       | Some s => Some s
                       | None => readApiKey request
                       end) in
     isApiKeyAllowed apiKey env = true →
     ∃ cursor,
       let r := listEventsForApiKey env apiKey limit cursor in
       handleListEvents request env =
         {| status := 200;
            payload := BodyEvents (listing_events r) (listing_cursor r)
                         (listing_listComplete r) |}).
Proof.
  intros n limit.
  assert (n = JsNaN ∨ is_zero n → limit = JsInt 50) as Hdefault.
  { intros Hn%truthy_false_iff. unfold limit, effective_limit, Num.or.
    fold n. rewrite Hn. by vm_compute. }
  assert (within 1 200 limit) as Hwithin.
  { unfold limit, effective_limit, Num.or. fold n.
    destruct (Num.truthy n) eqn:Hn.
    - apply min_max_clamps. by destruct n.
    - by apply min_max_clamps. }
  split; [|split; [done|split; [|split; [done|split]]]].
  - intros ->. apply Hdefault. right. reflexivity.
  - intros Hnan Hzero. unfold limit, effective_limit, Num.or. fold n.
    destruct (Num.truthy n) eqn:Hn.
    + by apply min_max_clamps.
    + apply truthy_false_iff in Hn. tauto.
  - intros apiKey cursor. unfold list_query. cbn [opt_limit].
    clearbody limit. clear Hdefault.
    destruct limit as [| | |q]; try done. cbn [within] in Hwithin.
    destruct Hwithin as [Hlo Hhi].
    assert (Num.min (JsInt 1000) (JsFin q) = JsFin q) as ->.
    { unfold Num.min, JsInt, Num.leb.
      destruct (Qle_bool (this (Qc_of_Z 1000)) (this q)) eqn:Hq; [|done].
      apply Qc_leb_le in Hq. exfalso.
      assert (Qc_of_Z 1000 ≤ Qc_of_Z 200)%Qc as Habs by (by etrans).
      apply (proj1 (Qc_of_Z_le _ _)) in Habs. lia. }
    split; [done|]. cbn [within]. split; [done|].
    etrans; [done|]. apply Qc_of_Z_le. lia.
  - intros request env Hparam apiKey Hgate.
    exists (if present (query_cursor request) then query_cursor request else None).
    unfold handleListEvents. fold apiKey. rewrite Hgate, Hparam. reflexivity.
Qed.

(** C2. For every namespace, limit N and cursor, the page the listing
    service returns holds at most N events as soon as the store answered the
    [list] call with no more keys than the limit it was given, and the
    returned cursor is absent exactly when the returned [listComplete] flag
    is true. *)
Theorem C2_page_size_and_cursor (env : Env) (apiKey : string) (N : JsNumber)
    (cursor : option string) :
  let r := listEventsForApiKey env apiKey N cursor in
  (honours_limit (WEBHOOKS env) (list_query apiKey N cursor) →
     Num.leb (Num.of_nat (length (listing_events r))) N = true) ∧
  (listing_cursor r = None ↔ listing_listComplete r = true).
Proof.
  intros r. split.
  - unfold honours_limit. intros Hstore.
    set (page := kv_list (WEBHOOKS env) (list_query apiKey N cursor)) in *.
    assert (Num.leb (Num.of_nat (length (listing_events r)))
              (opt_limit (list_query apiKey N cursor)) = true) as Hle.
    { eapply leb_trans; [|exact Hstore].
      unfold Num.of_nat. rewrite leb_JsInt. apply bool_decide_eq_true.
      subst r. unfold listEventsForApiKey. simpl. fold page.
      rewrite drop_nulls_omap. pose proof (omap_length_le (kv_get (WEBHOOKS env))
        (page_keys page)). lia. }
    unfold list_query in Hle. cbn [opt_limit] in Hle.
    destruct (min_leb_r (JsInt 1000) N) as [Hmin|Hnan].
    + eapply leb_trans; [exact Hle | exact Hmin].
    + rewrite Hnan in Hle. by destruct (Num.of_nat _).
  - subst r. unfold listEventsForApiKey. simpl.
    by destruct (kv_list _ _).
Qed.

(** C7. The events of a returned page are exactly the values of the listed
    keys whose [get] is not absent, in the order of the key listing: a key
    whose value vanished between [list] and [get] is dropped, each such key
    makes the page one event shorter, and the returned [listComplete] flag
    and cursor are those of the key-listing page, whatever [get] answers. *)
Theorem C7_vanished_keys_dropped (env : Env) (apiKey : string) (limit : JsNumber)
    (cursor : option string) :
  let page := kv_list (WEBHOOKS env) (list_query apiKey limit cursor) in
  let r := listEventsForApiKey env apiKey limit cursor in
  listing_events r = omap (kv_get (WEBHOOKS env)) (page_keys page) ∧
  (∀ e, e ∈ listing_events r ↔
        ∃ k, k ∈ page_keys page ∧ kv_get (WEBHOOKS env) k = Some e) ∧
  (length (listing_events r)
   + length (filter (vanished (WEBHOOKS env)) (page_keys page)))%nat
  = length (page_keys page) ∧
  listing_listComplete r
  = match page with ListIncomplete _ _ => false | ListComplete _ => true end ∧
  listing_cursor r
  = match page with ListIncomplete _ c => Some c | ListComplete _ => None end ∧
  (∀ get',
     let env' :=
       {| WEBHOOKS := {| kv_list := kv_list (WEBHOOKS env); kv_get := get';
                         kv_delete := kv_delete (WEBHOOKS env) |};
          ALLOWED_API_KEYS := ALLOWED_API_KEYS env;
          RETENTION_DAYS := RETENTION_DAYS env;
          PANEL_USER := PANEL_USER env;
          PANEL_PASS := PANEL_PASS env |} in
     let r' := listEventsForApiKey env' apiKey limit cursor in
     listing_listComplete r' = listing_listComplete r ∧
     listing_cursor r' = listing_cursor r).
Proof.
  intros page r.
  assert (listing_events r = omap (kv_get (WEBHOOKS env)) (page_keys page)) as Hev.
  { subst r page. unfold listEventsForApiKey. simpl. apply drop_nulls_omap. }
  split; [done|]. split.
  { intros e. rewrite Hev. apply list_elem_of_omap. }
  split.
  { rewrite Hev. apply omap_length_vanished. }
  repeat split.
Qed.

(** * Strings *)

Lemma to_list_of_list (l : list ascii) : Str.to_list (Str.of_list l) = l.
Proof. induction l; simpl; by f_equal. Qed.

Lemma of_list_to_list (s : string) : Str.of_list (Str.to_list s) = s.
Proof. induction s; simpl; by f_equal. Qed.

Lemma to_list_app (s1 s2 : string) :
  Str.to_list (s1 +:+ s2) = Str.to_list s1 ++ Str.to_list s2.
Proof. induction s1; simpl; by f_equal. Qed.

Lemma to_list_length (s : string) : length (Str.to_list s) = String.length s.
Proof. induction s; simpl; by f_equal. Qed.

Lemma indexOf_None (c : ascii) (s : string) :
  Str.indexOf c s = None ↔ c ∉ Str.to_list s.
Proof.
  induction s as [|a s IH]; simpl.
  - split; [intros _; apply not_elem_of_nil | done].
  - rewrite not_elem_of_cons. case_decide as Hac.
    + split; [done | intros [? _]; congruence].
    + destruct (Str.indexOf c s); simpl.
      * split; [done|]. intros [_ Hs]. by apply IH in Hs.
      * split; [|done]. intros _. split; [congruence | by apply IH].
Qed.

Lemma indexOf_app_sep (c : ascii) (s rest : string) :
  Str.indexOf c s = None →
  Str.indexOf c (s +:+ String c rest) = Some (String.length s).
Proof.
  induction s as [|a s IH]; simpl.
  - intros _. by rewrite decide_True.
  - case_decide; [done|].
    destruct (Str.indexOf c s) eqn:Hs; [done|].
    intros _. by rewrite IH.
Qed.

Lemma slice_prefix (s rest : string) :
  Str.slice 0 (String.length s) (s +:+ rest) = s.
Proof.
  unfold Str.slice. rewrite Nat.sub_0_r, drop_0, to_list_app.
  rewrite <-to_list_length, take_app_length. apply of_list_to_list.
Qed.

Lemma replace_colon_dot_to_list (s : string) :
  Str.to_list (Str.replace_colon_dot s) = dashed <$> Str.to_list s.
Proof.
  induction s as [|a s IH]; simpl; [done|]. rewrite IH. f_equal.
  unfold dashed.
  destruct (decide (a = ":"%char)) as [->|Hcolon]; [done|].
  destruct (decide (a = "."%char)) as [->|Hdot]; [done|].
  rewrite decide_False by tauto. done.
Qed.

Lemma dashed_neq (a : ascii) : dashed a ≠ ":"%char ∧ dashed a ≠ "."%char.
Proof. unfold dashed. case_decide; [done | tauto]. Qed.

Lemma digit36_alphabet (d : nat) : digit36 d ∈ alphabet36.
Proof.
  unfold digit36. apply list_elem_of_In, nth_In.
  change (length (Str.to_list _)) with 36%nat.
  apply Nat.mod_upper_bound. done.
Qed.

Lemma alphabet36_plain (c : ascii) :
  c ∈ alphabet36 → c ≠ ":"%char ∧ c ≠ "."%char ∧ c ≠ "_"%char ∧ c ≠ "-"%char.
Proof.
  assert (Forall (λ c, c ≠ ":" ∧ c ≠ "." ∧ c ≠ "_" ∧ c ≠ "-")%char alphabet36) as H.
  { unfold alphabet36. simpl. repeat constructor; done. }
  rewrite Forall_forall in H. apply H.
Qed.

(** The random suffix: the first eight radix-36 digits of the fraction. *)
Lemma random_suffix (digits : list nat) :
  Str.slice 2 10 (Math_random_toString36 digits)
  = Str.of_list (digit36 <$> take 8 digits).
Proof.
  unfold Str.slice, Math_random_toString36.
  destruct digits as [|d digits]; [done|].
  rewrite to_list_app, to_list_of_list. simpl. by rewrite fmap_take.
Qed.

(** * Key codec *)

Lemma generateEventId_parts (amb : Ambient) :
  Str.to_list (generateEventId amb)
  = (dashed <$> Str.to_list (now_for_id amb))
    ++ "_"%char :: (digit36 <$> take 8 (random_digits amb)).
Proof.
  unfold generateEventId. rewrite random_suffix.
  rewrite !to_list_app, replace_colon_dot_to_list, to_list_of_list. done.
Qed.

Lemma generateEventId_no_colon (amb : Ambient) :
  Str.indexOf ":" (generateEventId amb) = None.
Proof.
  apply indexOf_None. rewrite generateEventId_parts.
  rewrite elem_of_app, elem_of_cons, !list_elem_of_fmap.
  intros [(a & Ha & _)|[Hu|(d & Hd & _)]].
  - by destruct (dashed_neq a) as [? _].
  - done.
  - destruct (alphabet36_plain _ (digit36_alphabet d)) as [Hc _]. congruence.
Qed.

Lemma key_prefix_makeStorageKey (namespace id : string) :
  Str.indexOf ":" namespace = None →
  key_prefix (makeStorageKey namespace id) = namespace.
Proof.
  intros Hns. unfold key_prefix, makeStorageKey.
  change (":" +:+ id) with (String ":" id).
  rewrite indexOf_app_sep by done. apply slice_prefix.
Qed.

Lemma indexOf_Some_split (c : ascii) (s : string) (idx : nat) :
  Str.indexOf c s = Some idx →
  ∃ pre rest,
    s = pre +:+ String c rest ∧ Str.indexOf c pre = None ∧
    String.length pre = idx.
Proof.
  revert idx. induction s as [|a s IH]; intros idx; simpl; [done|].
  case_decide as Hac.
  - intros [= <-]. subst a. by exists "", s.
  - destruct (Str.indexOf c s) as [i|]; [|done]. simpl. intros [= <-].
    destruct (IH i eq_refl) as (pre & rest & -> & Hpre & <-).
    exists (String a pre), rest. simpl. rewrite decide_False by done.
    by rewrite Hpre.
Qed.

(** What the scanner extracts from a key name is the part before its first
    [:], and the whole name when it has none. *)
Lemma key_prefix_before_first_colon (name x : string) :
  key_prefix name = x ↔ before_first_colon name x.
Proof.
  unfold before_first_colon. rewrite <-!indexOf_None. split.
  - intros <-. unfold key_prefix.
    destruct (Str.indexOf ":" name) as [idx|] eqn:Hidx; [|by left].
    apply indexOf_Some_split in Hidx as (pre & rest & -> & Hpre & <-).
    rewrite slice_prefix. right. split; [done|]. by exists rest.
  - intros [[Hnone ->]|[Hnone [rest ->]]].
    + unfold key_prefix. by rewrite Hnone.
    + by apply (key_prefix_makeStorageKey x rest).
Qed.

(** C8. A generated event id contains no [:], and for every namespace that
    contains no [:] the part of the storage key [namespace:id] before its
    first [:], as the scanner extracts it, is the namespace; this holds of
    the key under which [handleWebhook] stores an event. *)
Theorem C8_storage_key_prefix_roundtrip (amb : Ambient) (namespace : string) :
  Str.indexOf ":" (generateEventId amb) = None ∧
  (Str.indexOf ":" namespace = None →
     key_prefix (makeStorageKey namespace (generateEventId amb)) = namespace) ∧
  (∀ request env key value,
     (handleWebhook request env amb).2 = [KVPut key value] →
     key = makeStorageKey (apiKey value) (generateEventId amb) ∧
     (Str.indexOf ":" (apiKey value) = None → key_prefix key = apiKey value)).
Proof.
  split; [apply generateEventId_no_colon|].
  split; [apply key_prefix_makeStorageKey|].
  intros request env key value. unfold handleWebhook.
  destruct (negb (isApiKeyAllowed _ env)); [done|].
  destruct (json request) as [v|]; [|done].
  destruct (validate v); [|done..].
  simpl. intros [= <- <-]. simpl. split; [done|].
  apply key_prefix_makeStorageKey.
Qed.

(** C9 (amended). A generated event id is the concatenation of the ISO
    timestamp in which every [:] and every [.] has been replaced by [-] and
    every other character, the hyphens included, is kept; an underscore;
    and a random suffix made of the first eight radix-36 digits of the
    random fraction, so of at most eight characters of the 36-symbol
    alphabet, and of fewer when the fraction has fewer digits. *)
Theorem C9_event_id_shape (amb : Ambient) :
  ∃ stamp suffix,
    generateEventId amb = stamp +:+ "_" +:+ suffix ∧
    Str.to_list stamp = dashed <$> Str.to_list (now_for_id amb) ∧
    (∀ c, c ∈ Str.to_list stamp → c ≠ ":"%char ∧ c ≠ "."%char) ∧
    Str.to_list suffix = digit36 <$> take 8 (random_digits amb) ∧
    String.length suffix = (length (random_digits amb) `min` 8)%nat ∧
    (∀ c, c ∈ Str.to_list suffix → c ∈ alphabet36).
Proof.
  exists (Str.replace_colon_dot (now_for_id amb)),
         (Str.slice 2 10 (Math_random_toString36 (random_digits amb))).
  split; [done|].
  split; [apply replace_colon_dot_to_list|].
  split.
  { intros c. rewrite replace_colon_dot_to_list, list_elem_of_fmap.
    intros (a & -> & _). apply dashed_neq. }
  rewrite random_suffix, to_list_of_list.
  split; [done|]. split.
  - rewrite <-to_list_length, to_list_of_list, length_fmap, length_take. lia.
  - intros c. rewrite list_elem_of_fmap. intros (d & -> & _).
    apply digit36_alphabet.
Qed.

(** * Namespace gate *)

Lemma allowlist_of_spec (env : Env) (entry : string) :
  entry ∈ allowlist_of env ↔
  entry ≠ "" ∧
  ∃ piece, piece ∈ Str.split "," (default "" (ALLOWED_API_KEYS env)) ∧
           entry = Str.trim piece.
Proof.
  unfold allowlist_of. rewrite list_elem_of_In, filter_In, in_map_iff.
  split.
  - intros [(piece & <- & Hin) Hne]. split.
    + by destruct (Str.trim piece).
    + exists piece. by rewrite list_elem_of_In.
  - intros [Hne (piece & Hin & ->)]. split.
    + exists piece. by rewrite <-list_elem_of_In.
    + by destruct (Str.trim piece).
Qed.

(** C6. The namespace gate lets every namespace through when the configured
    allow-list, split on commas, trimmed and without its empty entries, is
    empty; when it is not empty the gate lets a namespace through exactly
    when the namespace is one of its entries; and when the gate rejects the
    namespace of a write, [handleWebhook] answers 403 with the error
    "Forbidden api_key" and issues no store operation, so the store is
    unchanged. *)
Theorem C6_namespace_gate (namespace : string) (env : Env) :
  (∀ entry, entry ∈ allowlist_of env ↔
     entry ≠ "" ∧
     ∃ piece, piece ∈ Str.split "," (default "" (ALLOWED_API_KEYS env)) ∧
              entry = Str.trim piece) ∧
  (allowlist_of env = [] → isApiKeyAllowed namespace env = true) ∧
  (allowlist_of env ≠ [] →
     (isApiKeyAllowed namespace env = true ↔ namespace ∈ allowlist_of env)) ∧
  (∀ request amb store,
     toEffectiveKey (readApiKey request) = namespace →
     isApiKeyAllowed namespace env = false →
     let '(response, writes) := handleWebhook request env amb in
     rejects_with response 403 "Forbidden api_key" ∧
     writes = [] ∧ kv_run writes store = store).
Proof.
  split; [apply allowlist_of_spec|].
  unfold isApiKeyAllowed. split; [by intros ->|]. split.
  - intros Hne. destruct (allowlist_of env) as [|e l] eqn:Hl; [done|].
    simpl. apply bool_decide_eq_true.
  - intros request amb store Hns Hgate. unfold handleWebhook.
    rewrite Hns. unfold isApiKeyAllowed. rewrite Hgate. done.
Qed.

(** * Reference host and sample data *)

Example reference_btoa :
  Reference.btoa "admin:secret" = "YWRtaW46c2VjcmV0" ∧ Reference.btoa ":" = "Og==".
Proof. split; reflexivity. Qed.

Example reference_Number :
  Reference.StringToNumber "0" = JsInt 0 ∧
  Reference.StringToNumber " 25 " = JsInt 25 ∧
  Reference.StringToNumber "-5" = JsFin (- Qc_of_Z 5)%Qc ∧
  Reference.StringToNumber "" = JsInt 0 ∧
  Reference.StringToNumber "abc" = JsNaN ∧
  Reference.StringToNumber "Infinity" = JsPosInf.
Proof. repeat split; reflexivity. Qed.

Example split_trim_examples :
  Str.split "," "demo, other ,,x" = ["demo"; " other "; ""; "x"] ∧
  Str.split "," "" = [""] ∧
  Str.trim "  a b  " = "a b" ∧
  Str.slice 2 10 "0.4fx70l9u2bq" = "4fx70l9u" ∧
  Str.indexOf ":" "demo:2024-a" = Some 4%nat.
Proof. repeat split; reflexivity. Qed.

Example sample_event_id :
  generateEventId Sample.half = "2024-01-15T10-30-00-000Z_i" ∧
  generateEventId Sample.eleven = "2024-01-15T10-30-00-000Z_4fx70l9u".
Proof. split; reflexivity. Qed.

(** * Batch deleter *)

(** Induction over JSON values, through arrays and objects. *)
Lemma JSON_values_ind (P : JSON → Prop) :
  P JNull → (∀ b, P (JBool b)) → (∀ n, P (JNumber n)) → (∀ s, P (JString s)) →
  (∀ elems, Forall P elems → P (JArray elems)) →
  (∀ fields, Forall (λ kv, P kv.2) fields → P (JObject fields)) →
  ∀ v, P v.
Proof.
  intros Hnull Hbool Hnum Hstr Harr Hobj. fix IH 1.
  intros [|b|n|s|elems|fields].
  - apply Hnull.
  - apply Hbool.
  - apply Hnum.
  - apply Hstr.
  - apply Harr. induction elems as [|e elems IHl]; constructor;
      [apply IH | apply IHl].
  - apply Hobj. induction fields as [|[k x] fields IHl]; constructor;
      [apply IH | apply IHl].
Qed.

Section BatchDelete.
Context `{host : JsHost}.

Lemma kv_run_cons (w : KVWrite) (ws : list KVWrite)
    (store : gmap string EventRecord) :
  kv_run (w :: ws) store = kv_run ws (kv_step store w).
Proof. reflexivity. Qed.

Lemma kv_run_stays_absent (ws : list KVWrite)
    (store : gmap string EventRecord) (k : string) :
  Forall is_delete ws → store !! k = None → kv_run ws store !! k = None.
Proof.
  intros Hall. revert store.
  induction Hall as [|w ws Hw Hall IH]; intros store Hk; [done|].
  rewrite kv_run_cons. destruct w as [|k']; [done|].
  apply IH. simpl. rewrite lookup_delete_None. by right.
Qed.

Lemma kv_run_deleted (ws : list KVWrite) (store : gmap string EventRecord)
    (k : string) :
  Forall is_delete ws → KVDelete k ∈ ws → kv_run ws store !! k = None.
Proof.
  intros Hall. revert store.
  induction Hall as [|w ws Hw Hall IH]; intros store Hin.
  - by apply elem_of_nil in Hin.
  - rewrite kv_run_cons.
    apply elem_of_cons in Hin as [<-|Hin]; [|by apply IH].
    apply kv_run_stays_absent; [done|]. apply lookup_delete_eq.
Qed.

Lemma kv_run_untouched (ws : list KVWrite) (store : gmap string EventRecord)
    (k : string) :
  Forall is_delete ws → KVDelete k ∉ ws → kv_run ws store !! k = store !! k.
Proof.
  intros Hall. revert store.
  induction Hall as [|w ws Hw Hall IH]; intros store Hin; [done|].
  rewrite kv_run_cons. destruct w as [|k']; [done|]. simpl.
  rewrite not_elem_of_cons in Hin. destruct Hin as [Hne Hin].
  rewrite IH by done. apply lookup_delete_ne. congruence.
Qed.

(** The conversion to text throws exactly on the values that hold an object
    with an own [toString] property. *)
Lemma ToString_throws (v : JSON) : ToString v = None ↔ unprintable v.
Proof.
  induction v as [|b|n|s|elems IH|fields _] using JSON_values_ind.
  - split; [done | inversion 1].
  - split; [by destruct b | inversion 1].
  - split; [done | inversion 1].
  - split; [done | inversion 1].
  - rewrite Forall_forall in IH. simpl. rewrite fmap_None, mapM_None, Exists_exists.
    split.
    + intros (e & Hin & He). apply unprintable_array with e; [done|].
      apply IH; [done|]. by destruct e.
    + inversion 1 as [|elems' e Hin He]; subst.
      exists e. split; [done|]. apply IH in He; [|done]. by destruct e.
  - simpl. destruct (assoc "toString" fields) as [x|] eqn:Hown.
    + split; [intros _ | done]. constructor. rewrite Hown. by eexists.
    + split; [done|]. inversion 1 as [fields' [x Hx]|]; subst. congruence.
Qed.

Lemma derived_keys_throws (namespace : string) (ids : list JSON) :
  derived_keys namespace ids = None ↔
  ∃ id, id ∈ take 500 ids ∧ unprintable id.
Proof.
  unfold derived_keys, derived_key. rewrite mapM_None, Exists_exists.
  split; intros (id & Hin & Hid); exists id; (split; [done|]).
  - apply ToString_throws. by apply fmap_None in Hid.
  - apply fmap_None. by apply ToString_throws.
Qed.

Lemma derived_keys_each (namespace : string) (ids : list JSON)
    (keys : list string) :
  derived_keys namespace ids = Some keys →
  Forall2 (λ id k, derived_key namespace id = Some k) (take 500 ids) keys.
Proof. apply mapM_Some_1. Qed.

Lemma derived_keys_count (namespace : string) (ids : list JSON)
    (keys : list string) :
  derived_keys namespace ids = Some keys →
  length keys = (length ids `min` 500)%nat.
Proof.
  intros Hkeys%derived_keys_each%Forall2_length.
  rewrite length_take in Hkeys. lia.
Qed.

(** The key derived from an entry is the namespace, a [:], and the text of
    the entry. *)
Lemma derived_key_shape (namespace : string) (id : JSON) (k : string) :
  derived_key namespace id = Some k →
  ∃ text, ToString id = Some text ∧ k = namespace +:+ ":" +:+ text.
Proof.
  unfold derived_key. destruct (ToString id) as [text|]; [|done].
  intros [= <-]. by exists text.
Qed.

Lemma derived_keys_of_strings (namespace : string) (ids : list JSON)
    (keys : list string) (i : nat) (s : string) :
  derived_keys namespace ids = Some keys →
  (i < 500)%nat → ids !! i = Some (JString s) →
  keys !! i = Some (namespace +:+ ":" +:+ s).
Proof.
  intros Hkeys%derived_keys_each Hi Hid.
  assert (take 500 ids !! i = Some (JString s)) as Htake.
  { by rewrite lookup_take_lt. }
  destruct (Forall2_lookup_l _ _ _ _ _ Hkeys Htake) as (k & Hk & Hder).
  rewrite Hk. by injection Hder as <-.
Qed.

Lemma Promise_all_true (outcomes : list bool) :
  Promise_all outcomes = true ↔ ∀ i, outcomes !! i ≠ Some false.
Proof.
  unfold Promise_all. induction outcomes as [|[] outcomes IH]; simpl.
  - split; [by intros _ i | done].
  - rewrite IH. split.
    + intros Hall [|i]; [done | apply Hall].
    + intros Hall i. apply (Hall (S i)).
  - split; [done|]. intros Hall. by destruct (Hall 0%nat).
Qed.

Lemma store_accepts_forallb (kv : KVNamespace) (keys : list string) :
  Promise_all (imap (kv_delete kv) keys) = true ↔ store_accepts kv keys.
Proof.
  unfold store_accepts. rewrite Promise_all_true. split.
  - intros Hall i k Hk. specialize (Hall i).
    rewrite list_lookup_imap, Hk in Hall. simpl in Hall.
    by destruct (kv_delete kv i k).
  - intros Hall i. rewrite list_lookup_imap.
    destruct (keys !! i) as [k|] eqn:Hk; [|done]. simpl.
    by rewrite (Hall i k Hk).
Qed.

Lemma store_rejects_forallb (kv : KVNamespace) (keys : list string) :
  Promise_all (imap (kv_delete kv) keys) = false →
  ∃ i k, keys !! i = Some k ∧ kv_delete kv i k = false.
Proof.
  unfold Promise_all. generalize (kv_delete kv). intros outcome. revert outcome.
  induction keys as [|k keys IH]; intros outcome; simpl; [done|].
  destruct (outcome 0%nat k) eqn:Hk; simpl.
  - intros (i & k' & Hin & Hk')%IH. by exists (S i), k'.
  - intros _. by exists 0%nat, k.
Qed.

Lemma handleDeleteEvents_reached (request : Request) (env : Env)
    (namespace : string) (ids : option JSON) :
  reaches_batch_delete request env namespace ids →
  handleDeleteEvents request env =
    match ids with
    | Some (JArray (id :: rest)) =>
        match derived_keys namespace (id :: rest) with
        | None => (ThrownTypeError, [])
        | Some keys =>
            if Promise_all (imap (kv_delete (WEBHOOKS env)) keys) then
              (Returned {| status := 200;
                           payload := BodyDeleted (length keys) |},
               KVDelete <$> keys)
            else (ThrownStoreError, KVDelete <$> keys)
        end
    | _ => (Returned (json_error 400 "ids must be a non-empty array"), [])
    end.
Proof.
  intros (Hauth & payload & Hjson & Htruthy & Hobject & Hns & Hgate & Hids).
  unfold handleDeleteEvents. rewrite Hauth, Hjson, Htruthy, Hobject. simpl.
  unfold namespace_of in Hns. rewrite Hids.
  destruct (property "key" payload) as [[| | |s| |]|];
    try done; injection Hns as <-; rewrite Hgate; simpl;
    by destruct ids as [[| | | |[|id rest]|]|].
Qed.

Lemma handleDeleteEvents_unusable (request : Request) (env : Env)
    (payload : JSON) :
  json request = Some payload →
  unusable_ids (property "ids" payload) →
  (handleDeleteEvents request env).2 = [].
Proof.
  intros Hjson Hbad. unfold handleDeleteEvents. rewrite Hjson.
  destruct (negb (requireBasicAuth request env)); [done|].
  destruct (negb (json_truthy payload) || negb (typeof_object payload)); [done|].
  cbv zeta.
  destruct (property "key" payload) as [[| | |s| |]|]; try done;
    (destruct (negb (isApiKeyAllowed _ env)); [done|]);
    (destruct Hbad as [->|[(v & -> & Hv)| ->]]; [done| |done]);
    by destruct v.
Qed.

(** C4 (amended). For every delete request that is authenticated, has an
    object body and names a namespace the gate allows, and every non-empty
    [ids] array: when none of its first 500 entries holds an object with an
    own [toString] property (every string, number, boolean and null
    qualifies), batch delete issues delete calls for exactly the storage
    keys derived from the first min(|ids|, 500) entries, in their order, the
    key of a string entry being the namespace, a [:] and the string; when
    the store resolves every one of these calls it returns that count as
    [deleted] and, in whatever order the calls complete, the derived keys
    are gone and every other key of the store is untouched, a key derived
    from an entry beyond the first 500 included unless one of the first 500
    derives it as well; when the store rejects one of the calls it throws
    after issuing them all and returns no count. When one of the first 500
    entries holds such an object it throws before issuing any call. *)
Theorem C4_batch_delete_first_500 (request : Request) (env : Env)
    (namespace : string) (ids : list JSON)
    (store : gmap string EventRecord) :
  reaches_batch_delete request env namespace (Some (JArray ids)) →
  ids ≠ [] →
  ((∀ id, id ∈ take 500 ids → ¬ unprintable id) →
   ∃ keys,
     derived_keys namespace ids = Some keys ∧
     length keys = (length ids `min` 500)%nat ∧
     (∀ i s, (i < 500)%nat → ids !! i = Some (JString s) →
        keys !! i = Some (namespace +:+ ":" +:+ s)) ∧
     (handleDeleteEvents request env).2 = KVDelete <$> keys ∧
     (store_accepts (WEBHOOKS env) keys →
        deletes_first_500 request env namespace ids store) ∧
     (¬ store_accepts (WEBHOOKS env) keys →
        (handleDeleteEvents request env).1 = ThrownStoreError)) ∧
  ((∃ id, id ∈ take 500 ids ∧ unprintable id) →
   handleDeleteEvents request env = (ThrownTypeError, [])).
Proof.
  intros Hreach Hne. destruct ids as [|id rest]; [done|].
  pose proof (handleDeleteEvents_reached _ _ _ _ Hreach) as Hrun.
  cbv beta iota in Hrun. split.
  2: { intros Hex. apply (proj2 (derived_keys_throws namespace _)) in Hex.
       by rewrite Hrun, Hex. }
  intros Hprint.
  destruct (derived_keys namespace (id :: rest)) as [keys|] eqn:Hkeys.
  2: { apply derived_keys_throws in Hkeys as (x & Hin & Hx).
       by destruct (Hprint x Hin). }
  pose proof (derived_keys_count _ _ _ Hkeys) as Hlen.
  exists keys. split; [done|]. split; [done|]. split.
  { intros i s. by apply derived_keys_of_strings. }
  split.
  { rewrite Hrun. by destruct (Promise_all _). }
  split.
  2: { intros Hrej. rewrite Hrun.
       destruct (Promise_all _) eqn:Hall; [|done].
       by apply store_accepts_forallb in Hall. }
  intros Haccepts%store_accepts_forallb.
  rewrite Haccepts in Hrun.
  unfold deletes_first_500. exists keys. split; [done|]. rewrite Hrun.
  assert (Forall is_delete (KVDelete <$> keys)) as Hdel.
  { apply Forall_fmap, Forall_forall. done. }
  assert (∀ k, KVDelete k ∈ KVDelete <$> keys ↔ k ∈ keys) as Hmem.
  { intros k. rewrite list_elem_of_fmap. split.
    - by intros (k' & [= ->] & Hk').
    - intros Hk. by exists k. }
  assert (∀ k, k ∉ keys →
            kv_run (KVDelete <$> keys) store !! k = store !! k) as Hother.
  { intros k Hk. apply kv_run_untouched; [done|]. by rewrite Hmem. }
  split; [done|]. split; [done|]. split; [by rewrite Hlen|].
  split; [|split; [done|split]].
  - intros k Hk. apply kv_run_deleted; [done|]. by rewrite Hmem.
  - intros i id' key _ _ _. apply Hother.
  - intros completed Hperm. apply map_eq. intros k.
    assert (Forall is_delete completed) as Hdel' by by rewrite Hperm.
    destruct (decide (k ∈ keys)) as [Hk|Hk].
    + rewrite !kv_run_deleted; [done|done|by rewrite Hmem|done|].
      rewrite Hperm. by rewrite Hmem.
    + rewrite !kv_run_untouched; [done|done|by rewrite Hmem|done|].
      rewrite Hperm. by rewrite Hmem.
Qed.

(** C10 (amended). For every delete request whose parsed body lacks an
    [ids] field, whose [ids] field is not an array, or whose [ids] array is
    empty, batch delete issues no delete call and leaves the store
    unchanged; when the request is authenticated, has an object body and
    names a namespace the gate allows, it returns the 400 error
    "ids must be a non-empty array". *)
Theorem C10_unusable_ids_rejected (request : Request) (env : Env)
    (payload : JSON) (store : gmap string EventRecord) :
  json request = Some payload →
  unusable_ids (property "ids" payload) →
  let '(completion, writes) := handleDeleteEvents request env in
  writes = [] ∧
  (∀ w, w ∈ writes → ¬ is_delete w) ∧
  kv_run writes store = store ∧
  (∀ namespace,
     reaches_batch_delete request env namespace (property "ids" payload) →
     completion = Returned (json_error 400 "ids must be a non-empty array")).
Proof.
  intros Hjson Hbad.
  pose proof (handleDeleteEvents_unusable request env payload Hjson Hbad) as Hw.
  destruct (handleDeleteEvents request env) as [completion writes] eqn:Hrun.
  simpl in Hw. subst writes.
  split; [done|]. split; [by intros w Hin%elem_of_nil|]. split; [done|].
  intros namespace Hreach.
  rewrite (handleDeleteEvents_reached _ _ _ _ Hreach) in Hrun.
  destruct Hbad as [Hnone|[(v & Hv & Harr)|Hempty]].
  - rewrite Hnone in Hrun. by injection Hrun as <-.
  - rewrite Hv in Hrun. destruct v; try done; by injection Hrun as <-.
  - rewrite Hempty in Hrun. by injection Hrun as <-.
Qed.

End BatchDelete.

(** * The claims at concrete inputs *)

Lemma string_length_app (s1 s2 : string) :
  String.length (s1 +:+ s2) = (String.length s1 + String.length s2)%nat.
Proof. rewrite <-!to_list_length, to_list_app. apply length_app. Qed.

(** Counterexample to C3 as worded: with [?limit=0] the parameter is present
    and parses to the number 0, whose clamp into the range from 1 to 200 is
    1, and the effective limit is 50. *)
Lemma C3_counterexample_limit_zero :
  Number (H := Reference.host) (Some "0") = JsInt 0 ∧
  effective_limit (host := Reference.host) (Some "0") = JsInt 50 ∧
  clamped_1_200 (JsInt 0) (JsInt 1) ∧
  ¬ limit_as_specified (H := Reference.host) (Some "0").
Proof.
  assert (Qc_of_Z 0 < Qc_of_Z 1)%Qc as H01 by (apply Qc_of_Z_lt; lia).
  split; [reflexivity|]. split; [reflexivity|]. split.
  - split; [done|]. split.
    + intros [Hle _]. by apply Qclt_not_le in H01.
    + intros Hgt. exfalso. apply (Qclt_not_le _ _ Hgt).
      apply Qc_of_Z_le. lia.
  - intros [_ Hclamp].
    assert (clamped_1_200 (JsInt 0) (JsInt 50)) as [Hlow _].
    { apply Hclamp; done. }
    specialize (Hlow H01). discriminate Hlow.
Qed.

(** Counterexample to C9 as worded: at half past ten with a random fraction
    of one half the id is ["2024-01-15T10-30-00-000Z_i"], whose suffix has
    one character; and with a fraction of eleven digits the id is
    ["2024-01-15T10-30-00-000Z_4fx70l9u"], in which the hyphens of the
    timestamp, which are not alphanumeric, are kept. *)
Lemma C9_counterexample_short_suffix_and_hyphens :
  generateEventId Sample.half = "2024-01-15T10-30-00-000Z_i" ∧
  ¬ id_as_specified Sample.half ∧
  generateEventId Sample.eleven = "2024-01-15T10-30-00-000Z_4fx70l9u" ∧
  ¬ id_as_specified Sample.eleven.
Proof.
  split; [reflexivity|]. split; [|split; [reflexivity|]].
  - intros (stamp & suffix & Hid & Hstamp & _ & Hsuffix & _).
    apply (f_equal String.length) in Hid.
    rewrite !string_length_app, Hstamp, Hsuffix in Hid.
    vm_compute in Hid. discriminate Hid.
  - intros (stamp & suffix & Hid & Hstamp & Hreplaced & _ & _).
    apply (f_equal Str.to_list) in Hid. rewrite to_list_app in Hid.
    apply (f_equal (take 24)) in Hid.
    rewrite take_app_length' in Hid by by rewrite to_list_length.
    apply (Hreplaced 4%nat "-"%char); [reflexivity | reflexivity |].
    by rewrite <-Hid.
Qed.

(** Counterexample to C4 as worded, at three authenticated requests for
    the allowed namespace ["demo"] that reach batch delete. With the empty
    [ids] array it answers with the 400 error and no [deleted] count. With
    the [ids] array of the string ["a"] and an object whose own [toString]
    property is the number 1, the conversion of the object throws and no
    delete call is issued. With the [ids] array of the one string
    ["frozen"], against a store that rejects the delete of ["demo:frozen"],
    the call is issued and the handler throws instead of returning a
    count. *)
Lemma C4_counterexample_three_requests :
  reaches_batch_delete (H := Reference.host)
    (Sample.delete_with (JObject [("key", JString "demo"); ("ids", JArray [])]))
    (Sample.env (Some "demo")) "demo" (Some (JArray [])) ∧
  handleDeleteEvents (host := Reference.host)
    (Sample.delete_with (JObject [("key", JString "demo"); ("ids", JArray [])]))
    (Sample.env (Some "demo"))
  = (Returned (json_error 400 "ids must be a non-empty array"), []) ∧
  ¬ deletes_first_500 (H := Reference.host)
      (Sample.delete_with (JObject [("key", JString "demo"); ("ids", JArray [])]))
      (Sample.env (Some "demo")) "demo" [] ∅ ∧
  handleDeleteEvents (host := Reference.host)
    (Sample.delete_with
       (JObject [("key", JString "demo");
                 ("ids", JArray [JString "a";
                                 JObject [("toString", JNumber (JsInt 1))]])]))
    (Sample.env (Some "demo"))
  = (ThrownTypeError, []) ∧
  handleDeleteEvents (host := Reference.host)
    (Sample.delete_with
       (JObject [("key", JString "demo"); ("ids", JArray [JString "frozen"])]))
    (Sample.env (Some "demo"))
  = (ThrownStoreError, [KVDelete "demo:frozen"]).
Proof.
  split.
  { split; [reflexivity|]. eexists. repeat split; reflexivity. }
  split; [reflexivity|]. split; [|split; reflexivity].
  unfold deletes_first_500.
  change (handleDeleteEvents _ _)
    with (Returned (json_error 400 "ids must be a non-empty array"),
          @nil KVWrite).
  intros (keys & _ & _ & _ & Hcompletion & _). discriminate Hcompletion.
Qed.

(** Counterexample to C10 as worded: an authenticated request whose body
    names the namespace ["other"] and has no [ids] field, under the
    allow-list ["demo"], is answered 403 "Forbidden api_key", not with the
    error about [ids]. *)
Lemma C10_counterexample_forbidden_namespace :
  json (Sample.delete_with (JObject [("key", JString "other")]))
  = Some (JObject [("key", JString "other")]) ∧
  unusable_ids (property "ids" (JObject [("key", JString "other")])) ∧
  handleDeleteEvents (host := Reference.host)
    (Sample.delete_with (JObject [("key", JString "other")]))
    (Sample.env (Some "demo"))
  = (Returned (json_error 403 "Forbidden api_key"), []) ∧
  (handleDeleteEvents (host := Reference.host)
     (Sample.delete_with (JObject [("key", JString "other")]))
     (Sample.env (Some "demo"))).1
  ≠ Returned (json_error 400 "ids must be a non-empty array").
Proof.
  split; [reflexivity|]. split; [by left|]. split; [reflexivity|].
  change (handleDeleteEvents _ _)
    with (Returned (json_error 403 "Forbidden api_key"), @nil KVWrite).
  discriminate.
Qed.

(** * Namespace scanner *)

Lemma Set_add_elem (x y : string) (s : list string) :
  y ∈ Set_add x s ↔ y ∈ s ∨ y = x.
Proof.
  unfold Set_add. case_bool_decide as Hx.
  - split; [by left | intros [?| ->]; done].
  - rewrite elem_of_app, list_elem_of_singleton. done.
Qed.

Lemma Set_add_NoDup (x : string) (s : list string) :
  NoDup s → NoDup (Set_add x s).
Proof.
  intros Hs. unfold Set_add. case_bool_decide as Hx; [done|].
  apply NoDup_app. split; [done|]. split.
  - intros y Hy ->%list_elem_of_singleton. done.
  - apply NoDup_singleton.
Qed.

Lemma add_prefix_elem (distinct : list string) (name x : string) :
  x ∈ add_prefix distinct name ↔
  x ∈ distinct ∨ (x ≠ "" ∧ x ≠ NO_KEY ∧ key_prefix name = x).
Proof.
  unfold add_prefix, scan_key. simpl.
  destruct (Str.nonempty (key_prefix name)) eqn:Hne; simpl.
  - case_bool_decide as Hnk; simpl.
    + split; [by left|]. intros [?|(_ & Hx & <-)]; done.
    + rewrite Set_add_elem. split.
      * intros [?| ->]; [by left|]. right. split; [|done].
        intros Hempty. by rewrite Hempty in Hne.
      * intros [?|(_ & _ & <-)]; [by left | by right].
  - split; [by left|]. intros [?|(Hx & _ & <-)]; [done|].
    by destruct (key_prefix name).
Qed.

Lemma add_prefix_NoDup (distinct : list string) (name : string) :
  NoDup distinct → NoDup (add_prefix distinct name).
Proof.
  intros Hd. unfold add_prefix, scan_key. simpl.
  destruct (_ && _); [by apply Set_add_NoDup | done].
Qed.

Lemma foldl_add_prefix_elem (names distinct : list string) (x : string) :
  x ∈ foldl add_prefix distinct names ↔
  x ∈ distinct ∨
  (x ≠ "" ∧ x ≠ NO_KEY ∧ ∃ name, name ∈ names ∧ key_prefix name = x).
Proof.
  revert distinct. induction names as [|name names IH]; intros distinct; simpl.
  - split; [by left|]. intros [?|(_ & _ & name & Hin & _)]; [done|].
    by apply elem_of_nil in Hin.
  - rewrite IH, add_prefix_elem. split.
    + intros [[?|(? & ? & ?)]|(? & ? & n & ? & ?)].
      * by left.
      * right. repeat split; try done. exists name. split; [left | done].
      * right. repeat split; try done. exists n. split; [by right | done].
    + intros [?|(? & ? & n & [->|?]%elem_of_cons & ?)].
      * by left; left.
      * left. by right.
      * right. repeat split; try done. by exists n.
Qed.

Lemma foldl_add_prefix_NoDup (names distinct : list string) :
  NoDup distinct → NoDup (foldl add_prefix distinct names).
Proof.
  revert distinct. induction names as [|name names IH]; intros distinct Hd;
    simpl; [done|].
  by apply IH, add_prefix_NoDup.
Qed.

Lemma foldl_add_prefix_app (names1 names2 distinct : list string) :
  foldl add_prefix distinct (names1 ++ names2)
  = foldl add_prefix (foldl add_prefix distinct names1) names2.
Proof. apply foldl_app. Qed.

(** The loop over the keys of one page counts them and adds their
    prefixes. *)
Lemma foldl_scan_key (names : list string) (scanned : nat)
    (distinct : list string) :
  foldl scan_key (scanned, distinct) names
  = ((scanned + length names)%nat, foldl add_prefix distinct names).
Proof.
  revert scanned distinct.
  induction names as [|name names IH]; intros scanned distinct; simpl.
  - by rewrite Nat.add_0_r.
  - rewrite <-Nat.add_succ_comm, <-IH. done.
Qed.

Lemma scan_loop_pages (fuel : nat) (env : Env) (cursor : option string)
    (scanned : nat) (distinct result : list string) :
  scan_loop fuel env cursor scanned distinct = Some result →
  ∃ pages,
    scan_pages (WEBHOOKS env) cursor scanned pages ∧
    result = foldl add_prefix distinct (scanned_names pages).
Proof.
  revert cursor scanned distinct.
  induction fuel as [|fuel IH]; intros cursor scanned distinct; simpl;
    destruct (scanned <? maxScan)%nat eqn:Hbudget; simpl;
    try (apply Nat.ltb_ge in Hbudget; intros [= <-]; exists [];
         split; [by constructor | done]);
    [done|].
  apply Nat.ltb_lt in Hbudget.
  rewrite foldl_scan_key.
  destruct (kv_list (WEBHOOKS env) (scan_query cursor)) as [keys next|keys]
    eqn:Hpage; simpl.
  - intros (pages & Hpages & ->)%IH.
    exists (ListIncomplete keys next :: pages). split.
    + by constructor.
    + unfold scanned_names. simpl. by rewrite foldl_add_prefix_app.
  - intros [= <-]. exists [ListComplete keys]. split.
    + by constructor.
    + unfold scanned_names. simpl. by rewrite app_nil_r.
Qed.

(** Enough fuel: against a store whose incomplete pages are never empty the
    loop ends within [maxScan - scanned] calls of [list]. *)
Lemma scan_loop_returns (env : Env) (fuel : nat) (cursor : option string)
    (scanned : nat) (distinct : list string) :
  progresses (WEBHOOKS env) →
  (maxScan - scanned ≤ fuel)%nat →
  is_Some (scan_loop fuel env cursor scanned distinct).
Proof.
  intros Hprogress. revert cursor scanned distinct.
  induction fuel as [|fuel IH]; intros cursor scanned distinct Hfuel; simpl;
    destruct (scanned <? maxScan)%nat eqn:Hbudget; simpl; try by eexists.
  - apply Nat.ltb_lt in Hbudget. lia.
  - apply Nat.ltb_lt in Hbudget. rewrite foldl_scan_key.
    destruct (kv_list (WEBHOOKS env) (scan_query cursor)) as [keys next|keys]
      eqn:Hpage; simpl; [|by eexists].
    apply IH. apply Hprogress in Hpage.
    destruct keys; [done|]. simpl. lia.
Qed.

(** Enough fuel: when the sequence of pages is finite, the loop ends within
    as many calls of [list] as there are pages. *)
Lemma scan_pages_returns (env : Env) (cursor : option string) (scanned : nat)
    (pages : list KVNamespaceListResult) (distinct : list string) :
  scan_pages (WEBHOOKS env) cursor scanned pages →
  is_Some (scan_loop (length pages) env cursor scanned distinct).
Proof.
  intros Hpages. revert distinct.
  induction Hpages as [cursor scanned Hspent
                      |cursor scanned keys Hbudget Hpage
                      |cursor scanned keys next pages Hbudget Hpage _ IH];
    intros distinct; simpl.
  - apply Nat.ltb_ge in Hspent. rewrite Hspent. by eexists.
  - apply Nat.ltb_lt in Hbudget. rewrite Hbudget. simpl.
    rewrite foldl_scan_key, Hpage. by eexists.
  - apply Nat.ltb_lt in Hbudget. rewrite Hbudget. simpl.
    rewrite foldl_scan_key, Hpage. simpl. apply IH.
Qed.

(** More fuel does not change a result. *)
Lemma scan_loop_fuel_mono (fuel fuel' : nat) (env : Env)
    (cursor : option string) (scanned : nat) (distinct result : list string) :
  (fuel ≤ fuel')%nat →
  scan_loop fuel env cursor scanned distinct = Some result →
  scan_loop fuel' env cursor scanned distinct = Some result.
Proof.
  revert fuel' cursor scanned distinct.
  induction fuel as [|fuel IH]; intros fuel' cursor scanned distinct Hle.
  - simpl. destruct (scanned <? maxScan)%nat eqn:Hbudget; simpl; [done|].
    intros <-. destruct fuel'; simpl; by rewrite Hbudget.
  - destruct fuel' as [|fuel']; [lia|]. simpl.
    destruct (scanned <? maxScan)%nat; simpl; [|done].
    destruct (foldl scan_key _ _) as [scanned' distinct'].
    destruct (kv_list _ _); [|done]. apply IH. lia.
Qed.

Section Sorting.
Context `{host : JsHost} {collation : ConsistentCollation host}.

Lemma sort_insert_Permutation (x : string) (l : list string) :
  sort_insert localeCompare x l ≡ₚ x :: l.
Proof.
  induction l as [|y l IH]; simpl; [done|].
  destruct (localeCompare x y); [done..|].
  rewrite IH. apply Permutation_swap.
Qed.

Lemma Array_sort_Permutation (l : list string) :
  Array_sort localeCompare l ≡ₚ l.
Proof.
  induction l as [|x l IH]; simpl; [done|].
  by rewrite sort_insert_Permutation, IH.
Qed.

Lemma sort_insert_sorted (x : string) (l : list string) :
  StronglySorted locale_le l →
  StronglySorted locale_le (sort_insert localeCompare x l).
Proof.
  induction 1 as [|y l Hl IH Hy]; simpl.
  - repeat constructor.
  - assert (locale_le x y → Forall (locale_le x) (y :: l)) as Hbelow.
    { intros Hxy. constructor; [done|].
      eapply Forall_impl; [exact Hy|]. intros z Hyz.
      by eapply locale_le_trans. }
    destruct (localeCompare x y) eqn:Hxy.
    + constructor; [by constructor|]. apply Hbelow.
      unfold locale_le. by rewrite Hxy.
    + constructor; [by constructor|]. apply Hbelow.
      unfold locale_le. by rewrite Hxy.
    + constructor; [done|].
      rewrite sort_insert_Permutation. constructor; [|done].
      destruct (locale_le_total y x) as [?|Hle]; [done|].
      unfold locale_le in Hle. by rewrite Hxy in Hle.
Qed.

Lemma Array_sort_sorted (l : list string) :
  StronglySorted locale_le (Array_sort localeCompare l).
Proof.
  induction l as [|x l IH]; simpl; [constructor|].
  by apply sort_insert_sorted.
Qed.

(** C5. When the namespace scanner returns, its keys are the parts before
    the first [:] of the key names it scanned (the whole name when it has
    no [:]), without the empty one and without NO-KEY, each once, sorted
    ascending in the order of [localeCompare]; the pages it scanned are
    those fetched while the store reported an incomplete listing and fewer
    than 2000 keys had been scanned; so when every scanned key is the
    storage key of a NO-KEY event the result is empty. It returns exactly
    when that sequence of pages is finite, within as many calls of [list]
    as there are pages; it is finite, of at most 2000 pages, against every
    store whose incomplete pages carry at least one key; and the result
    does not depend on the bound put on the number of calls. *)
Theorem C5_namespace_scan (env : Env) :
  (progresses (WEBHOOKS env) →
     is_Some (handleListDistinctKeys maxScan env)) ∧
  (∀ pages,
     scan_pages (WEBHOOKS env) None 0 pages →
     is_Some (handleListDistinctKeys (length pages) env)) ∧
  (∀ fuel fuel' response,
     (fuel ≤ fuel')%nat →
     handleListDistinctKeys fuel env = Some response →
     handleListDistinctKeys fuel' env = Some response) ∧
  (∀ fuel response,
     handleListDistinctKeys fuel env = Some response →
     ∃ pages keys,
       scan_pages (WEBHOOKS env) None 0 pages ∧
       status response = 200%nat ∧
       payload response = BodyKeys keys ∧
       (∀ x, x ∈ keys ↔
             x ≠ "" ∧ x ≠ "NO-KEY" ∧
             ∃ name, name ∈ scanned_names pages ∧ before_first_colon name x) ∧
       NoDup keys ∧
       StronglySorted locale_le keys ∧
       ((∀ name, name ∈ scanned_names pages →
                 ∃ id, name = "NO-KEY:" +:+ id) →
          keys = [])).
Proof.
  split.
  { intros Hprogress. unfold handleListDistinctKeys.
    destruct (scan_loop_returns env maxScan None 0 [] Hprogress) as [d ->];
      [lia | by eexists]. }
  split.
  { intros pages Hpages. unfold handleListDistinctKeys.
    destruct (scan_pages_returns env _ _ _ [] Hpages) as [d ->]. by eexists. }
  split.
  { intros fuel fuel' response Hle. unfold handleListDistinctKeys.
    destruct (scan_loop fuel env None 0 []) as [distinct|] eqn:Hloop; [|done].
    by rewrite (scan_loop_fuel_mono _ _ _ _ _ _ _ Hle Hloop). }
  intros fuel response. unfold handleListDistinctKeys.
  destruct (scan_loop fuel env None 0 []) as [distinct|] eqn:Hloop; [|done].
  simpl. intros [= <-].
  apply scan_loop_pages in Hloop as (pages & Hpages & Hdistinct).
  set (keys := Array_sort localeCompare distinct).
  assert (∀ x, x ∈ keys ↔
            x ≠ "" ∧ x ≠ "NO-KEY" ∧
            ∃ name, name ∈ scanned_names pages ∧ before_first_colon name x)
    as Hkeys.
  { intros x. unfold keys. rewrite Array_sort_Permutation, Hdistinct.
    rewrite foldl_add_prefix_elem.
    setoid_rewrite key_prefix_before_first_colon. split; [|by right].
    intros [Hnil|?]; [by apply elem_of_nil in Hnil | done]. }
  exists pages, keys. split; [done|]. split; [done|]. split; [done|].
  split; [done|]. split; [|split].
  - unfold keys. rewrite Array_sort_Permutation, Hdistinct.
    apply foldl_add_prefix_NoDup, NoDup_nil_2.
  - apply Array_sort_sorted.
  - intros Honly. destruct keys as [|x keys'] eqn:Hk; [done|]. exfalso.
    assert (x ∈ x :: keys') as Hx by left.
    apply Hkeys in Hx as (_ & Hnk & name & Hname & Hprefix).
    apply Hnk. apply key_prefix_before_first_colon in Hprefix as <-.
    destruct (Honly name Hname) as [id ->].
    by apply (key_prefix_makeStorageKey "NO-KEY" id).
Qed.

End Sorting.

(** * Witnesses *)

(** The code-unit order of the reference host is a consistent comparator. *)
Lemma reference_locale_le (a b : string) :
  locale_le (H := Reference.host) a b ↔ String.le a b.
Proof.
  unfold locale_le, String.le, String.leb. simpl. unfold Reference.localeCompare.
  destruct (String.compare a b); simpl; split; done.
Qed.

Global Instance reference_collation : ConsistentCollation Reference.host.
Proof.
  split.
  - intros a b. rewrite !reference_locale_le. apply String.le_total.
  - intros a b c. rewrite !reference_locale_le. apply transitivity.
Qed.

Example sample_scan :
  handleListDistinctKeys (host := Reference.host) maxScan (Sample.env None)
  = Some {| status := 200; payload := BodyKeys ["demo"; "other"] |}.
Proof. vm_compute. reflexivity. Qed.

Example sample_delete :
  handleDeleteEvents (host := Reference.host)
    (Sample.delete_with
       (JObject [("key", JString "demo");
                 ("ids", JArray [JString "2024-a"; JString "2024-b"])]))
    (Sample.env (Some "demo, other"))
  = (Returned {| status := 200; payload := BodyDeleted 2 |},
     [KVDelete "demo:2024-a"; KVDelete "demo:2024-b"]).
Proof. vm_compute. reflexivity. Qed.

Example sample_listing :
  handleListEvents (host := Reference.host)
    (Sample.listing_of "demo" "2") (Sample.env None)
  = {| status := 200;
       payload := BodyEvents [Sample.event "demo" "2024-a"] None true |}.
Proof. vm_compute. reflexivity. Qed.

Example sample_ingest :
  handleWebhook (Sample.post_with "demo" (JObject [("ping", JString "pong")]))
    (Sample.env (Some "demo")) Sample.eleven
  = ({| status := 200;
        payload := BodyIngested "2024-01-15T10-30-00-000Z_4fx70l9u" |},
     [KVPut "demo:2024-01-15T10-30-00-000Z_4fx70l9u"
        {| id := "2024-01-15T10-30-00-000Z_4fx70l9u"; apiKey := "demo";
           receivedAt := "2024-01-15T10:30:00.000Z";
           body := JObject [("ping", JString "pong")] |}]).
Proof. vm_compute. reflexivity. Qed.

(** The store of the samples answers a listing of ["demo"] under limit 3
    with two keys, and the page has one event. *)
Lemma C2_witness_limit_three :
  honours_limit (WEBHOOKS (Sample.env None)) (list_query "demo" (JsInt 3) None) ∧
  Num.leb
    (Num.of_nat
       (length (listing_events
                  (listEventsForApiKey (Sample.env None) "demo" (JsInt 3) None))))
    (JsInt 3) = true.
Proof.
  split; [vm_compute; reflexivity|].
  apply (C2_page_size_and_cursor (Sample.env None) "demo" (JsInt 3) None).
  vm_compute. reflexivity.
Defined.

Lemma C4_witness_two_ids :
  reaches_batch_delete (H := Reference.host)
    (Sample.delete_with
       (JObject [("key", JString "demo");
                 ("ids", JArray [JString "2024-a"; JString "2024-b"])]))
    (Sample.env (Some "demo, other")) "demo"
    (Some (JArray [JString "2024-a"; JString "2024-b"])) ∧
  [JString "2024-a"; JString "2024-b"] ≠ [] ∧
  (∀ id, id ∈ take 500 [JString "2024-a"; JString "2024-b"] → ¬ unprintable id) ∧
  store_accepts (WEBHOOKS (Sample.env (Some "demo, other")))
    ["demo:2024-a"; "demo:2024-b"] ∧
  deletes_first_500 (H := Reference.host)
    (Sample.delete_with
       (JObject [("key", JString "demo");
                 ("ids", JArray [JString "2024-a"; JString "2024-b"])]))
    (Sample.env (Some "demo, other")) "demo"
    [JString "2024-a"; JString "2024-b"] ∅.
Proof.
  assert (reaches_batch_delete (H := Reference.host)
    (Sample.delete_with
       (JObject [("key", JString "demo");
                 ("ids", JArray [JString "2024-a"; JString "2024-b"])]))
    (Sample.env (Some "demo, other")) "demo"
    (Some (JArray [JString "2024-a"; JString "2024-b"]))) as Hreach.
  { split; [reflexivity|]. eexists. repeat split; reflexivity. }
  assert (∀ id, id ∈ take 500 [JString "2024-a"; JString "2024-b"] →
                ¬ unprintable id) as Hprint.
  { intros id Hin Hun. simpl in Hin.
    repeat (apply elem_of_cons in Hin as [->|Hin]; [inversion Hun|]).
    by apply elem_of_nil in Hin. }
  assert (store_accepts (WEBHOOKS (Sample.env (Some "demo, other")))
            ["demo:2024-a"; "demo:2024-b"]) as Haccepts.
  { intros [|[|i]] k Hk; [injection Hk as <-; reflexivity..|discriminate Hk]. }
  split; [exact Hreach|]. split; [discriminate|].
  split; [exact Hprint|]. split; [exact Haccepts|].
  destruct (C4_batch_delete_first_500 (host := Reference.host) _ _ _ _ ∅ Hreach)
    as [Hissued _]; [discriminate|].
  destruct (Hissued Hprint) as (keys & Hkeys & _ & _ & _ & Hdeleted & _).
  apply Hdeleted. vm_compute in Hkeys. injection Hkeys as <-. exact Haccepts.
Defined.

Lemma C10_witness_missing_ids :
  json (Sample.delete_with (JObject [("key", JString "demo")]))
  = Some (JObject [("key", JString "demo")]) ∧
  unusable_ids (property "ids" (JObject [("key", JString "demo")])) ∧
  (handleDeleteEvents (host := Reference.host)
     (Sample.delete_with (JObject [("key", JString "demo")]))
     (Sample.env (Some "demo"))).2 = [] ∧
  (handleDeleteEvents (host := Reference.host)
     (Sample.delete_with (JObject [("key", JString "demo")]))
     (Sample.env (Some "demo"))).1
  = Returned (json_error 400 "ids must be a non-empty array").
Proof.
  split; [reflexivity|]. split; [left; reflexivity|].
  pose proof (C10_unusable_ids_rejected (host := Reference.host)
                (Sample.delete_with (JObject [("key", JString "demo")]))
                (Sample.env (Some "demo"))
                (JObject [("key", JString "demo")]) ∅
                eq_refl (or_introl eq_refl)) as Hrun.
  revert Hrun.
  destruct (handleDeleteEvents _ _) as [completion writes].
  intros (Hwrites & _ & _ & Hcompletion).
  split; [exact Hwrites|]. apply (Hcompletion "demo").
  split; [reflexivity|]. eexists. repeat split; reflexivity.
Defined.

Lemma C5_witness_two_pages :
  ConsistentCollation Reference.host ∧
  progresses (WEBHOOKS (Sample.env None)) ∧
  is_Some (handleListDistinctKeys (host := Reference.host) maxScan
             (Sample.env None)).
Proof.
  assert (progresses (WEBHOOKS (Sample.env None))) as Hprogress.
  { intros q keys next. simpl.
    destruct (opt_prefix q) as [p|], (opt_cursor q);
      try case_bool_decide; try discriminate.
    intros [= <- _]. discriminate. }
  split; [exact reference_collation|]. split; [exact Hprogress|].
  apply (C5_namespace_scan (host := Reference.host) (Sample.env None)).
  exact Hprogress.
Defined.

(** * Effective key *)

Lemma trimStart_head (s : string) (a : ascii) :
  head (Str.to_list (Str.trimStart s)) = Some a → Str.is_white a = false.
Proof.
  induction s as [|b s IH]; simpl; [done|].
  destruct (Str.is_white b) eqn:Hb; [done|]. simpl. by intros [= <-].
Qed.

Lemma trimStart_blank (s : string) : Str.trimStart s = "" ↔ blank s.
Proof.
  unfold blank. induction s as [|b s IH]; simpl.
  - split; [constructor | done].
  - destruct (Str.is_white b) eqn:Hb.
    + rewrite IH. split; [by constructor | by inversion 1].
    + split; [done|]. inversion 1; congruence.
Qed.

Lemma trimStart_fixed (s : string) :
  (∀ a, head (Str.to_list s) = Some a → Str.is_white a = false) →
  Str.trimStart s = s.
Proof.
  destruct s as [|b s]; simpl; [done|]. intros Hhead.
  by rewrite (Hhead b).
Qed.

Lemma trimEnd_list_prefix (l : list ascii) :
  ∃ r, l = Str.trimEnd_list l ++ r.
Proof.
  induction l as [|a l [r IH]]; simpl; [by exists []|].
  destruct (Str.trimEnd_list l) as [|b t] eqn:Ht.
  - destruct (Str.is_white a); [by exists (a :: l) | exists l; by simpl].
  - exists r. simpl. by rewrite IH at 1.
Qed.

Lemma trimEnd_list_last (l : list ascii) (a : ascii) :
  last (Str.trimEnd_list l) = Some a → Str.is_white a = false.
Proof.
  induction l as [|b l IH]; simpl; [done|].
  destruct (Str.trimEnd_list l) as [|c t] eqn:Ht.
  - destruct (Str.is_white b) eqn:Hb; [done|]. by intros [= <-].
  - rewrite last_cons_cons. apply IH.
Qed.

Lemma trimEnd_list_nil (l : list ascii) :
  Str.trimEnd_list l = [] ↔ Forall (λ a, Str.is_white a = true) l.
Proof.
  induction l as [|b l IH]; simpl; [by split; [constructor|]|].
  destruct (Str.trimEnd_list l) as [|c t] eqn:Ht.
  - destruct (Str.is_white b) eqn:Hb.
    + split; [|done]. intros _. constructor; [done | by apply IH].
    + split; [done|]. inversion 1; congruence.
  - split; [done|]. inversion 1 as [|? ? _ Hl]. by apply IH in Hl.
Qed.

Lemma trimEnd_list_fixed (l : list ascii) :
  (∀ a, last l = Some a → Str.is_white a = false) → Str.trimEnd_list l = l.
Proof.
  induction l as [|b l IH]; simpl; [done|]. intros Hlast.
  destruct l as [|c l].
  - simpl. by rewrite (Hlast b).
  - rewrite IH; [done|]. intros a Ha. apply Hlast. by rewrite last_cons_cons.
Qed.

Lemma trim_trimmed (s : string) : trimmed (Str.trim s).
Proof.
  unfold trimmed, Str.trim. rewrite to_list_of_list. split.
  - intros a Ha. apply (trimStart_head s).
    destruct (trimEnd_list_prefix (Str.to_list (Str.trimStart s))) as [r ->].
    by destruct (Str.trimEnd_list _).
  - apply trimEnd_list_last.
Qed.

Lemma trim_fixed (s : string) : trimmed s → Str.trim s = s.
Proof.
  intros [Hhead Hlast]. unfold Str.trim.
  rewrite (trimStart_fixed s Hhead), (trimEnd_list_fixed _ Hlast).
  apply of_list_to_list.
Qed.

Lemma trim_blank (s : string) : Str.trim s = "" ↔ blank s.
Proof.
  rewrite <-trimStart_blank. unfold Str.trim. split.
  - intros Hempty.
    assert (Str.trimEnd_list (Str.to_list (Str.trimStart s)) = []) as Hnil.
    { by rewrite <-(to_list_of_list (Str.trimEnd_list _)), Hempty. }
    apply trimEnd_list_nil in Hnil.
    destruct (Str.trimStart s) as [|b t] eqn:Ht; [done|].
    pose proof (trimStart_head s b) as Hb. rewrite Ht in Hb.
    inversion Hnil as [|? ? Hwhite _]. rewrite Hb in Hwhite; done.
  - by intros ->.
Qed.

(** X1. The effective key is never empty and carries no white space at
    either end; it is NO-KEY when the given key is missing or blank and the
    trimmed key otherwise; a key that is already trimmed and not empty is
    kept as it is, so taking the effective key twice changes nothing. *)
Theorem X1_effective_key_normal_form (maybe : option string) :
  toEffectiveKey maybe ≠ "" ∧
  trimmed (toEffectiveKey maybe) ∧
  toEffectiveKey (Some (toEffectiveKey maybe)) = toEffectiveKey maybe ∧
  (blank (default "" maybe) → toEffectiveKey maybe = NO_KEY) ∧
  (¬ blank (default "" maybe) →
     toEffectiveKey maybe = Str.trim (default "" maybe)) ∧
  (trimmed (default "" maybe) → default "" maybe ≠ "" →
     toEffectiveKey maybe = default "" maybe).
Proof.
  assert (∀ s, trimmed s → s ≠ "" → toEffectiveKey (Some s) = s) as Hkeep.
  { intros s Hs Hne. unfold toEffectiveKey. simpl.
    rewrite (trim_fixed s Hs). by destruct s. }
  assert (trimmed NO_KEY) as Hnokey by (split; intros a [= <-]; reflexivity).
  assert (toEffectiveKey maybe ≠ "" ∧ trimmed (toEffectiveKey maybe)) as [Hne Htrim].
  { unfold toEffectiveKey.
    destruct (Str.trim (default "" maybe)) as [|b t] eqn:Ht; simpl; [done|].
    split; [done|]. rewrite <-Ht. apply trim_trimmed. }
  split; [done|]. split; [done|]. split; [by apply Hkeep|].
  split; [|split].
  - intros Hblank%trim_blank. unfold toEffectiveKey. by rewrite Hblank.
  - intros Hblank. unfold toEffectiveKey.
    destruct (Str.trim (default "" maybe)) as [|b t] eqn:Ht; [|done].
    by apply trim_blank in Ht.
  - intros Hs Hnonempty. destruct maybe as [s|]; [by apply Hkeep | done].
Qed.

(** * Storage keys of ingested events *)

Lemma to_list_inj (s1 s2 : string) : Str.to_list s1 = Str.to_list s2 → s1 = s2.
Proof. intros H. by rewrite <-(of_list_to_list s1), H, of_list_to_list. Qed.

(** A text is cut in one way only at a separator its right part lacks. *)
Lemma cut_at_last_separator {A} (c : A) (l1 l2 s1 s2 : list A) :
  c ∉ s1 → c ∉ s2 → l1 ++ c :: s1 = l2 ++ c :: s2 → l1 = l2 ∧ s1 = s2.
Proof.
  intros Hs1 Hs2. revert l2.
  induction l1 as [|a l1 IH]; intros [|b l2]; simpl.
  - by intros [= ->].
  - intros [= _ Htail]. destruct Hs1. rewrite Htail.
    apply elem_of_app. right. left.
  - intros [= _ Htail]. destruct Hs2. rewrite <-Htail.
    apply elem_of_app. right. left.
  - intros [= -> Htail]. by destruct (IH l2 Htail) as [-> ->].
Qed.

Lemma makeStorageKey_to_list (namespace id : string) :
  Str.to_list (makeStorageKey namespace id)
  = Str.to_list namespace ++ ":"%char :: Str.to_list id.
Proof. unfold makeStorageKey. by rewrite to_list_app. Qed.

Lemma makeStorageKey_inj (ns1 ns2 id1 id2 : string) :
  colon_free id1 → colon_free id2 →
  makeStorageKey ns1 id1 = makeStorageKey ns2 id2 → ns1 = ns2 ∧ id1 = id2.
Proof.
  intros H1%indexOf_None H2%indexOf_None Hkey.
  apply (f_equal Str.to_list) in Hkey. rewrite !makeStorageKey_to_list in Hkey.
  apply cut_at_last_separator in Hkey as [Hns Hid]; [|done..].
  split; by apply to_list_inj.
Qed.

Lemma generateEventId_inj (amb1 amb2 : Ambient) :
  generateEventId amb1 = generateEventId amb2 ↔
  Str.replace_colon_dot (now_for_id amb1) = Str.replace_colon_dot (now_for_id amb2) ∧
  digit36 <$> take 8 (random_digits amb1) = digit36 <$> take 8 (random_digits amb2).
Proof.
  assert (∀ amb, "_"%char ∉ digit36 <$> take 8 (random_digits amb)) as Hsuffix.
  { intros amb (d & Hd & _)%list_elem_of_fmap.
    destruct (alphabet36_plain _ (digit36_alphabet d)) as (_ & _ & Hu & _).
    congruence. }
  split.
  - intros Hid. apply (f_equal Str.to_list) in Hid.
    rewrite !generateEventId_parts in Hid.
    apply cut_at_last_separator in Hid as [Hstamp Hdigits]; [|done..].
    split; [|done]. apply to_list_inj. by rewrite !replace_colon_dot_to_list.
  - intros [Hstamp Hdigits]. apply to_list_inj.
    rewrite !generateEventId_parts, <-!replace_colon_dot_to_list.
    by rewrite Hstamp, Hdigits.
Qed.

Lemma storage_key_collision (ns1 ns2 : string) (amb1 amb2 : Ambient) :
  makeStorageKey ns1 (generateEventId amb1)
  = makeStorageKey ns2 (generateEventId amb2) ↔
  ns1 = ns2 ∧
  Str.replace_colon_dot (now_for_id amb1)
  = Str.replace_colon_dot (now_for_id amb2) ∧
  digit36 <$> take 8 (random_digits amb1)
  = digit36 <$> take 8 (random_digits amb2).
Proof.
  rewrite <-generateEventId_inj. split.
  - apply makeStorageKey_inj; apply generateEventId_no_colon.
  - by intros [-> ->].
Qed.

(** X2. The storage keys of two ingestions coincide exactly when their
    namespaces are equal, whatever characters these contain, their
    timestamps are equal once [:] and [.] are replaced, and the first eight
    radix-36 digits of their random fractions are equal; the ids alone
    coincide exactly under the last two conditions. *)
Theorem X2_storage_key_collisions (ns1 ns2 : string) (amb1 amb2 : Ambient) :
  (generateEventId amb1 = generateEventId amb2 ↔
     Str.replace_colon_dot (now_for_id amb1)
     = Str.replace_colon_dot (now_for_id amb2) ∧
     digit36 <$> take 8 (random_digits amb1)
     = digit36 <$> take 8 (random_digits amb2)) ∧
  (makeStorageKey ns1 (generateEventId amb1)
   = makeStorageKey ns2 (generateEventId amb2) ↔
     ns1 = ns2 ∧
     Str.replace_colon_dot (now_for_id amb1)
     = Str.replace_colon_dot (now_for_id amb2) ∧
     digit36 <$> take 8 (random_digits amb1)
     = digit36 <$> take 8 (random_digits amb2)).
Proof.
  split; [apply generateEventId_inj | apply storage_key_collision].
Qed.

Lemma handleWebhook_accepted (request : Request) (env : Env) (amb : Ambient) :
  status (handleWebhook request env amb).1 = 200%nat →
  ∃ body,
    json request = Some body ∧ validate body = Accepted ∧
    isApiKeyAllowed (toEffectiveKey (readApiKey request)) env = true ∧
    handleWebhook request env amb =
      let record :=
        {| id := generateEventId amb;
           apiKey := toEffectiveKey (readApiKey request);
           receivedAt := now_for_receivedAt amb;
           body := body |} in
      ({| status := 200; payload := BodyIngested (generateEventId amb) |},
       [KVPut (makeStorageKey (toEffectiveKey (readApiKey request))
                 (generateEventId amb)) (JSON_stringify record)]).
Proof.
  unfold handleWebhook.
  destruct (isApiKeyAllowed _ env) eqn:Hgate; simpl; [|done].
  destruct (json request) as [body|]; [|done].
  destruct (validate body) eqn:Hvalid; [|done..].
  intros _. by exists body.
Qed.

Lemma assoc_fmap_value (f : JSON → JSON) (k : string)
    (fields : list (string * JSON)) :
  assoc k (List.map (fun kv => (fst kv, f (snd kv))) fields) = f <$> assoc k fields.
Proof.
  induction fields as [|[k' x] fields IH]; simpl; [done|].
  by case_decide.
Qed.

Lemma assoc_NoDup (k : string) (x : JSON) (fields : list (string * JSON)) :
  NoDup fields.*1 → (k, x) ∈ fields → assoc k fields = Some x.
Proof.
  induction fields as [|[k' x'] fields IH]; simpl.
  - by intros _ Hin%elem_of_nil.
  - intros [Hfresh Hrest]%NoDup_cons [[= -> ->]|Hin]%elem_of_cons.
    + by rewrite decide_True.
    + rewrite decide_False; [by apply IH|].
      intros ->. apply Hfresh. apply list_elem_of_fmap. by exists (k, x).
Qed.

Lemma JSON_roundtrip_scalar (x : JSON) :
  scalar x → read_back x (JSON_roundtrip x).
Proof.
  destruct x as [| |[| | |q]| | |]; simpl; try done; intros _; split;
    try done; by intros [].
Qed.

(** X3. When [handleWebhook] answers 200, the body parsed to a flat object
    and the namespace passed the gate; the one write is a put, under the
    key [namespace:id], of the text of a record that carries the effective
    key of the request, the announced id, the clock reading and the parsed
    body. What is read back of that text is this record with the property
    names of the body in their order, every number of the body that is not
    finite replaced by [null] and every other value as it was parsed, so
    the parsed body itself when all its numbers are finite. After the put a
    lookup of the key gives the record so read back, whatever the store
    held there before, and every other key of the store is as it was. The
    expiry and the metadata passed with the put are not covered. *)
Theorem X3_ingest_then_lookup (request : Request) (env : Env) (amb : Ambient)
    (store : gmap string EventRecord) :
  status (handleWebhook request env amb).1 = 200%nat →
  ∃ fields record,
    json request = Some (JObject fields) ∧
    (∀ k x, assoc k fields = Some x → scalar x) ∧
    handleWebhook request env amb =
      ({| status := 200; payload := BodyIngested (id record) |},
       [KVPut (makeStorageKey (apiKey record) (id record)) record]) ∧
    apiKey record = toEffectiveKey (readApiKey request) ∧
    isApiKeyAllowed (apiKey record) env = true ∧
    id record = generateEventId amb ∧
    receivedAt record = now_for_receivedAt amb ∧
    (∃ stored,
       body record = JObject stored ∧ stored.*1 = fields.*1 ∧
       ∀ k x, assoc k fields = Some x →
              ∃ x', assoc k stored = Some x' ∧ read_back x x') ∧
    (NoDup fields.*1 → (∀ kv, kv ∈ fields → ¬ not_finite kv.2) →
     body record = JObject fields) ∧
    kv_run (handleWebhook request env amb).2 store
      !! makeStorageKey (apiKey record) (id record) = Some record ∧
    (∀ k, k ≠ makeStorageKey (apiKey record) (id record) →
          kv_run (handleWebhook request env amb).2 store !! k = store !! k).
Proof.
  intros (body & Hjson & Hvalid & Hgate & Hrun)%handleWebhook_accepted.
  apply validate_Accepted in Hvalid as [[fields ->] Hflat].
  rewrite Hrun. simpl in Hflat |- *.
  exists fields.
  eexists {| id := _; apiKey := _; receivedAt := _; body := _ |}.
  simpl. split; [done|]. split; [done|]. split; [done|]. split; [done|].
  split; [done|]. split; [done|]. split; [done|]. split; [|split; [|split]].
  - eexists. split; [done|]. split.
    + rewrite <-list_fmap_compose. by apply list_fmap_ext.
    + intros k x Hx. exists (JSON_roundtrip x). split.
      * by rewrite assoc_fmap_value, Hx.
      * apply JSON_roundtrip_scalar. by apply (Hflat k).
  - intros Hnodup Hfinite. simpl. f_equal.
    rewrite <-(list_fmap_id fields) at 2. apply list_fmap_ext.
    intros i [k x] Hin%list_elem_of_lookup_2. simpl. f_equal.
    assert (scalar x) as Hscalar.
    { apply (Hflat k). by apply assoc_NoDup. }
    destruct (JSON_roundtrip_scalar x Hscalar) as [_ Hsame].
    apply Hsame. by apply (Hfinite (k, x)).
  - apply lookup_insert_eq.
  - intros k Hk. by apply lookup_insert_ne.
Qed.

(** X4. Of two accepted ingestions run one after the other, the record of
    the second is in the store under its key afterwards; the record of the
    first is still there when the two keys differ, and has been replaced by
    the second when they coincide, which happens exactly when namespace,
    replaced timestamp and first eight random digits are the same. *)
Theorem X4_later_ingestion_wins (request1 request2 : Request) (env : Env)
    (amb1 amb2 : Ambient) (store : gmap string EventRecord) :
  status (handleWebhook request1 env amb1).1 = 200%nat →
  status (handleWebhook request2 env amb2).1 = 200%nat →
  ∃ key1 record1 key2 record2,
    (handleWebhook request1 env amb1).2 = [KVPut key1 record1] ∧
    (handleWebhook request2 env amb2).2 = [KVPut key2 record2] ∧
    (key1 = key2 ↔
       toEffectiveKey (readApiKey request1) = toEffectiveKey (readApiKey request2) ∧
       Str.replace_colon_dot (now_for_id amb1)
       = Str.replace_colon_dot (now_for_id amb2) ∧
       digit36 <$> take 8 (random_digits amb1)
       = digit36 <$> take 8 (random_digits amb2)) ∧
    let final :=
      kv_run ((handleWebhook request1 env amb1).2
              ++ (handleWebhook request2 env amb2).2) store in
    final !! key2 = Some record2 ∧
    (key1 ≠ key2 → final !! key1 = Some record1) ∧
    (key1 = key2 → final !! key1 = Some record2).
Proof.
  intros (body1 & _ & _ & _ & Hrun1)%handleWebhook_accepted
         (body2 & _ & _ & _ & Hrun2)%handleWebhook_accepted.
  rewrite Hrun1, Hrun2. simpl.
  do 4 eexists. split; [done|]. split; [done|].
  split; [apply storage_key_collision|].
  split; [apply lookup_insert_eq|]. split.
  - intros Hne. rewrite lookup_insert_ne by done. apply lookup_insert_eq.
  - intros ->. apply lookup_insert_eq.
Qed.

(** * Namespaces kept apart *)

Lemma starts_with_namespace (namespace namespace' id' : string) :
  colon_free namespace → colon_free namespace' →
  starts_with (namespace +:+ ":") (makeStorageKey namespace' id') →
  namespace' = namespace.
Proof.
  intros Hns Hns' [rest Hkey].
  rewrite <-(key_prefix_makeStorageKey namespace' id' Hns'), Hkey.
  change ((namespace +:+ ":") +:+ rest) with (String.append (namespace +:+ ":") rest).
  assert ((namespace +:+ ":") +:+ rest = makeStorageKey namespace rest) as ->.
  { unfold makeStorageKey. apply to_list_inj. rewrite !to_list_app.
    by rewrite <-app_assoc. }
  by apply key_prefix_makeStorageKey.
Qed.

(** X5. The listing of a namespace asks the store for the prefix
    [namespace:], with which every storage key of that namespace begins.
    Between namespaces without [:] this keeps listings apart: a store that
    answers only with keys of the prefix it was asked for never hands the
    listing of one such namespace a storage key of another. A namespace
    that does contain [:] is not kept apart: the storage keys of
    [namespace:rest] begin with the prefix of [namespace] too. *)
Theorem X5_listing_prefix_isolation (env : Env) (namespace : string)
    (limit : JsNumber) (cursor : option string) :
  opt_prefix (list_query namespace limit cursor) = Some (namespace +:+ ":") ∧
  (∀ id, starts_with (namespace +:+ ":") (makeStorageKey namespace id)) ∧
  (∀ rest id,
     starts_with (namespace +:+ ":")
       (makeStorageKey (namespace +:+ ":" +:+ rest) id)) ∧
  (colon_free namespace →
   honours_prefix (WEBHOOKS env) (list_query namespace limit cursor) →
   ∀ namespace' id',
     colon_free namespace' → namespace' ≠ namespace →
     makeStorageKey namespace' id'
       ∉ page_keys (kv_list (WEBHOOKS env) (list_query namespace limit cursor))).
Proof.
  split; [done|]. split; [|split].
  - intros id. exists id. unfold makeStorageKey. apply to_list_inj.
    rewrite !to_list_app. by rewrite <-app_assoc.
  - intros rest id. exists (rest +:+ ":" +:+ id). unfold makeStorageKey.
    apply to_list_inj. rewrite !to_list_app. by rewrite <-!app_assoc.
  - intros Hns Hstore namespace' id' Hns' Hne Hin.
    specialize (Hstore _ eq_refl). rewrite Forall_forall in Hstore.
    apply Hne. eapply starts_with_namespace; eauto.
Qed.

Section DeleteSafety.
Context `{host : JsHost}.

(** Every derived key is the namespace, a [:], and some text. *)
Lemma derived_keys_elem (namespace : string) (ids : list JSON)
    (keys : list string) (k : string) :
  derived_keys namespace ids = Some keys → k ∈ keys →
  ∃ text, k = makeStorageKey namespace text.
Proof.
  intros Hkeys%derived_keys_each (i & Hi)%list_elem_of_lookup_1.
  destruct (Forall2_lookup_r _ _ _ _ _ Hkeys Hi) as (id & _ & Hid).
  apply derived_key_shape in Hid as (text & _ & ->). by exists text.
Qed.

Lemma derived_keys_length (namespace : string) (ids : list JSON)
    (keys : list string) :
  derived_keys namespace ids = Some keys → (length keys ≤ 500)%nat.
Proof. intros ->%derived_keys_count. lia. Qed.

(** Either [handleDeleteEvents] issues nothing, or the request passed every
    guard, every one of the first 500 ids was converted, and the writes are
    the deletes of the derived keys; the handler then returns their number
    when the store resolves every call, and throws when it rejects one. *)
Lemma handleDeleteEvents_cases (request : Request) (env : Env) :
  (handleDeleteEvents request env).2 = [] ∨
  ∃ payload namespace ids keys,
    requireBasicAuth request env = true ∧
    json request = Some payload ∧
    namespace_of payload = Some namespace ∧
    isApiKeyAllowed namespace env = true ∧
    property "ids" payload = Some (JArray ids) ∧ ids ≠ [] ∧
    derived_keys namespace ids = Some keys ∧ keys ≠ [] ∧
    handleDeleteEvents request env =
      (if Promise_all (imap (kv_delete (WEBHOOKS env)) keys)
       then Returned {| status := 200; payload := BodyDeleted (length keys) |}
       else ThrownStoreError,
       KVDelete <$> keys).
Proof.
  destruct (requireBasicAuth request env) eqn:Hauth.
  2: { left. unfold handleDeleteEvents. by rewrite Hauth. }
  destruct (json request) as [payload|] eqn:Hjson.
  2: { left. unfold handleDeleteEvents. by rewrite Hauth, Hjson. }
  destruct (json_truthy payload) eqn:Htruthy.
  2: { left. unfold handleDeleteEvents. by rewrite Hauth, Hjson, Htruthy. }
  destruct (typeof_object payload) eqn:Hobject.
  2: { left. unfold handleDeleteEvents.
       by rewrite Hauth, Hjson, Htruthy, Hobject. }
  destruct (namespace_of payload) as [namespace|] eqn:Hns.
  2: { left. unfold handleDeleteEvents.
       rewrite Hauth, Hjson, Htruthy, Hobject. simpl.
       unfold namespace_of in Hns.
       by destruct (property "key" payload) as [[| | |s| |]|]. }
  destruct (isApiKeyAllowed namespace env) eqn:Hgate.
  2: { left. unfold handleDeleteEvents.
       rewrite Hauth, Hjson, Htruthy, Hobject. simpl.
       unfold namespace_of in Hns.
       destruct (property "key" payload) as [[| | |s| |]|];
         try done; injection Hns as <-; by rewrite Hgate. }
  assert (reaches_batch_delete request env namespace
            (property "ids" payload)) as Hreach.
  { split; [done|]. by exists payload. }
  rewrite (handleDeleteEvents_reached _ _ _ _ Hreach).
  destruct (property "ids" payload) as [[| | | |[|id rest]|]|] eqn:Hids;
    try (by left).
  destruct (derived_keys namespace (id :: rest)) as [keys|] eqn:Hkeys;
    [|by left].
  right. exists payload, namespace, (id :: rest), keys.
  repeat split; try done.
  - intros ->. by apply derived_keys_count in Hkeys.
  - by destruct (Promise_all _).
Qed.

(** X6. Whatever the request and the store, [handleDeleteEvents] issues
    deletes only, never a put, and at most 500 of them. It issues none when
    it throws a [TypeError] and none when it returns an answer other than
    200. When it issues one, the request carried the Basic credentials of
    the panel and its body named a namespace the gate allows; it then
    returns 200 with the number of deletes issued as the [deleted] count
    when the store resolves every one of the calls, and throws the error of
    the store, after issuing them all, when the store rejects one. *)
Theorem X6_delete_requires_credentials (request : Request) (env : Env) :
  Forall is_delete (handleDeleteEvents request env).2 ∧
  (length (handleDeleteEvents request env).2 ≤ 500)%nat ∧
  ((handleDeleteEvents request env).1 = ThrownTypeError →
     (handleDeleteEvents request env).2 = []) ∧
  (∀ r, (handleDeleteEvents request env).1 = Returned r → status r ≠ 200%nat →
     (handleDeleteEvents request env).2 = []) ∧
  ((handleDeleteEvents request env).2 ≠ [] →
     header_authorization request
     = Some ("Basic " +:+ btoa (default "" (PANEL_USER env) +:+ ":"
                                +:+ default "" (PANEL_PASS env))) ∧
     (∃ payload namespace,
        json request = Some payload ∧
        namespace_of payload = Some namespace ∧
        isApiKeyAllowed namespace env = true) ∧
     ∃ keys,
       (handleDeleteEvents request env).2 = KVDelete <$> keys ∧
       (store_accepts (WEBHOOKS env) keys →
          (handleDeleteEvents request env).1
          = Returned {| status := 200;
                        payload := BodyDeleted
                                     (length (handleDeleteEvents request env).2) |}) ∧
       (¬ store_accepts (WEBHOOKS env) keys →
          (handleDeleteEvents request env).1 = ThrownStoreError)).
Proof.
  destruct (handleDeleteEvents_cases request env)
    as [Hnil|(payload & namespace & ids & keys & Hauth & Hjson & Hns & Hgate
              & _ & _ & Hkeys & _ & Hrun)].
  - rewrite Hnil. repeat split; try done. simpl. lia.
  - rewrite Hrun. simpl.
    split; [apply Forall_fmap, Forall_forall; done|].
    split; [rewrite length_fmap; by eapply derived_keys_length|].
    split; [by destruct (Promise_all _)|].
    split; [destruct (Promise_all _); [by intros r [= <-]|done]|].
    intros _. split; [|split].
    + unfold requireBasicAuth in Hauth.
      destruct (header_authorization request) as [h|]; [|done].
      apply andb_true_iff in Hauth as [_ Hh].
      by apply bool_decide_eq_true in Hh as ->.
    + by exists payload, namespace.
    + exists keys. split; [done|]. split.
      * intros ->%store_accepts_forallb. by rewrite length_fmap.
      * intros Hrejects. destruct (Promise_all _) eqn:Hall; [|done].
        by apply store_accepts_forallb in Hall.
Qed.

(** X7. A batch delete for a namespace without [:] leaves the events of
    every other namespace without [:] in the store, whatever ids the
    request lists. *)
Theorem X7_delete_confined_to_namespace (request : Request) (env : Env)
    (payload : JSON) (namespace namespace' id' : string)
    (store : gmap string EventRecord) :
  json request = Some payload →
  namespace_of payload = Some namespace →
  colon_free namespace → colon_free namespace' → namespace' ≠ namespace →
  kv_run (handleDeleteEvents request env).2 store
    !! makeStorageKey namespace' id'
  = store !! makeStorageKey namespace' id'.
Proof.
  intros Hjson Hns Hfree Hfree' Hne.
  destruct (handleDeleteEvents_cases request env)
    as [->|(payload' & ns & ids & keys & _ & Hjson' & Hns' & _ & _ & _
            & Hkeys & _ & ->)]; [done|].
  simpl. rewrite Hjson in Hjson'. injection Hjson' as <-.
  rewrite Hns in Hns'. injection Hns' as <-.
  apply kv_run_untouched.
  - apply Forall_fmap, Forall_forall. done.
  - intros (k & [= Hk] & Hin)%list_elem_of_fmap.
    destruct (derived_keys_elem _ _ _ _ Hkeys Hin) as (text & ->).
    apply Hne.
    rewrite <-(key_prefix_makeStorageKey namespace' id' Hfree'), Hk.
    by apply key_prefix_makeStorageKey.
Qed.

End DeleteSafety.

(** * HTML escaping *)

Lemma string_app_assoc (s1 s2 s3 : string) :
  (s1 +:+ s2) +:+ s3 = s1 +:+ (s2 +:+ s3).
Proof. apply to_list_inj. rewrite !to_list_app. by rewrite app_assoc. Qed.

Lemma string_app_cons (a : ascii) (s t : string) :
  String a s +:+ t = String a (s +:+ t).
Proof. reflexivity. Qed.

Lemma replaceAll_app (c : ascii) (r s1 s2 : string) :
  Html.replaceAll c r (s1 +:+ s2)
  = Html.replaceAll c r s1 +:+ Html.replaceAll c r s2.
Proof.
  induction s1 as [|a s1 IH]; [done|].
  rewrite string_app_cons. simpl. rewrite IH.
  case_decide; [by rewrite string_app_assoc | done].
Qed.

Lemma escapeHtml_app (s1 s2 : string) :
  Html.escapeHtml (s1 +:+ s2) = Html.escapeHtml s1 +:+ Html.escapeHtml s2.
Proof. unfold Html.escapeHtml. by rewrite !replaceAll_app. Qed.

Lemma escapeHtml_single (a : ascii) :
  Html.escapeHtml (String a "") = Html.entity a.
Proof. destruct a as [[] [] [] [] [] [] [] []]; reflexivity. Qed.

Lemma escapeHtml_one_pass (s : string) :
  Html.escapeHtml s = Html.escape_each s.
Proof.
  induction s as [|a s IH]; [done|].
  change (String a s) with (String a "" +:+ s).
  rewrite escapeHtml_app, escapeHtml_single, IH. done.
Qed.

Lemma entity_chars (a c : ascii) :
  c ∈ Str.to_list (Html.entity a) →
  c ≠ "<"%char ∧ c ≠ ">"%char ∧ c ≠ Html.quote ∧ c ≠ Html.apostrophe.
Proof.
  unfold Html.entity. repeat case_decide; simpl;
    rewrite ?elem_of_cons, ?elem_of_nil; intros Hc;
    repeat (destruct Hc as [->|Hc]; [done|]); done.
Qed.

Lemma entity_plain (a : ascii) :
  ¬ Html.special a → Html.entity a = String a "".
Proof.
  unfold Html.special, Html.entity. intros Hplain.
  repeat case_decide; try done; destruct Hplain; tauto.
Qed.

(** An entity at the head of a text determines the character it stands
    for. *)
Lemma entity_head_inj (a b : ascii) (r1 r2 : list ascii) :
  Str.to_list (Html.entity a) ++ r1 = Str.to_list (Html.entity b) ++ r2 →
  a = b ∧ r1 = r2.
Proof.
  unfold Html.entity.
  repeat case_decide; subst; simpl; intros Heq; simplify_eq; done.
Qed.

Lemma escape_each_inj (s1 s2 : string) :
  Html.escape_each s1 = Html.escape_each s2 → s1 = s2.
Proof.
  revert s2. induction s1 as [|a s1 IH]; intros [|b s2]; simpl; intros Heq.
  - done.
  - apply (f_equal Str.to_list) in Heq. rewrite to_list_app in Heq.
    exfalso. revert Heq. unfold Html.entity. by repeat case_decide.
  - apply (f_equal Str.to_list) in Heq. rewrite to_list_app in Heq.
    exfalso. revert Heq. unfold Html.entity. by repeat case_decide.
  - apply (f_equal Str.to_list) in Heq. rewrite !to_list_app in Heq.
    apply entity_head_inj in Heq as [-> Hrest].
    f_equal. apply IH. by apply to_list_inj.
Qed.

(** X8. [escapeHtml], five successive [replaceAll] passes, has the effect of
    one pass that turns each of [&], [<], [>], the double quote and the
    apostrophe into its entity and keeps every other character: the
    ampersands of the entities are not escaped again. Its output contains
    none of [<], [>], the double quote and the apostrophe; it leaves a text
    without special characters as it is; and two different texts never
    escape to the same text. *)
Theorem X8_escapeHtml_one_pass (input : string) :
  Html.escapeHtml input = Html.escape_each input ∧
  (∀ c, c ∈ Str.to_list (Html.escapeHtml input) →
        c ≠ "<"%char ∧ c ≠ ">"%char ∧ c ≠ Html.quote ∧ c ≠ Html.apostrophe) ∧
  ((∀ c, c ∈ Str.to_list input → ¬ Html.special c) →
     Html.escapeHtml input = input) ∧
  (∀ other, Html.escapeHtml input = Html.escapeHtml other → input = other).
Proof.
  split; [apply escapeHtml_one_pass|]. rewrite escapeHtml_one_pass.
  split; [|split].
  - induction input as [|a s IH]; simpl; intros c.
    + by intros ?%elem_of_nil.
    + rewrite to_list_app, elem_of_app.
      intros [Hc|Hc]; [by eapply entity_chars | by apply IH].
  - induction input as [|a s IH]; simpl; intros Hplain; [done|].
    rewrite entity_plain, IH; [done| |].
    + intros c Hc. apply Hplain. by right.
    + apply Hplain. left.
  - intros other. rewrite escapeHtml_one_pass. apply escape_each_inj.
Qed.

(** * Router *)

Section RouterProperties.
Context `{host : JsHost}.

(** The branch [fetch] takes, read off the method and the path. *)
Lemma fetch_branches (fuel : nat) (ev : FetchEvent) (env : Env) (amb : Ambient) :
  (method ev = "OPTIONS" ∧
   fetch fuel ev env amb =
     Some (buildCorsResponse
             {| http_status := 204; http_headers := ∅; http_body := NullBody |},
           [])) ∨
  (method ev ≠ "OPTIONS" ∧ webhook_route ev ∧
   fetch fuel ev env amb =
     Some (buildCorsResponse
             (json_response (handleWebhook (incoming ev) env amb).1),
           (handleWebhook (incoming ev) env amb).2)) ∨
  (method ev ≠ "OPTIONS" ∧ delete_route ev ∧
   fetch fuel ev env amb =
     Some (match (handleDeleteEvents (incoming ev) env).1 with
           | Returned r =>
               if requireBasicAuth (incoming ev) env then json_response r
               else unauthorized false
           | ThrownTypeError | ThrownStoreError =>
               {| http_status := 500; http_headers := json_headers;
                  http_body := CaughtBody |}
           end,
           (handleDeleteEvents (incoming ev) env).2)) ∨
  (method ev ≠ "OPTIONS" ∧ ¬ webhook_route ev ∧ ¬ delete_route ev ∧
   ∀ response writes,
     fetch fuel ev env amb = Some (response, writes) →
     writes = [] ∧
     http_headers response !! "access-control-allow-origin" = None).
Proof.
  unfold fetch, webhook_route, delete_route.
  destruct (decide (method ev = "OPTIONS")) as [Hopt|Hopt].
  { left. by rewrite bool_decide_eq_true_2. }
  right. rewrite (bool_decide_eq_false_2 _ Hopt).
  destruct (decide (pathname ev = "/")) as [Hroot|Hroot].
  { right. right. rewrite (bool_decide_eq_true_2 _ Hroot). simpl.
    split; [done|]. split; [rewrite Hroot; by intros [_ [?|?]]|].
    split; [rewrite Hroot; by intros [_ ?]|].
    intros response writes [= <- <-]. split; [done|].
    unfold handlePanel, unauthorized. by destruct (requireBasicAuth _ _). }
  rewrite (bool_decide_eq_false_2 _ Hroot).
  destruct (decide (pathname ev = "/panel")) as [Hpanel|Hpanel].
  { right. right. rewrite (bool_decide_eq_true_2 _ Hpanel). simpl.
    split; [done|]. split; [rewrite Hpanel; by intros [_ [?|?]]|].
    split; [rewrite Hpanel; by intros [_ ?]|].
    intros response writes [= <- <-]. split; [done|].
    unfold handlePanel, unauthorized. by destruct (requireBasicAuth _ _). }
  rewrite (bool_decide_eq_false_2 _ Hpanel). simpl.
  destruct (decide (pathname ev = "/panel.js")) as [Hjs|Hjs];
    [rewrite (bool_decide_eq_true_2 _ Hjs)
    |rewrite (bool_decide_eq_false_2 _ Hjs)]; simpl.
  { destruct (decide (method ev = "GET")) as [Hget|Hget];
      [rewrite (bool_decide_eq_true_2 _ Hget)
      |rewrite (bool_decide_eq_false_2 _ Hget)]; simpl.
    - right. right. split; [done|].
      split; [rewrite Hget; by intros [? _]|].
      split; [rewrite Hget; by intros [? _]|].
      by intros response writes [= <- <-].
    - rewrite Hjs. repeat (rewrite bool_decide_eq_false_2 by done). simpl.
      right. right. split; [done|].
      split; [by intros [_ [?|?]]|]. split; [by intros [_ ?]|].
      by intros response writes [= <- <-]. }
  destruct (decide (pathname ev = "/panel-ext.js")) as [Hext|Hext];
    [rewrite (bool_decide_eq_true_2 _ Hext)
    |rewrite (bool_decide_eq_false_2 _ Hext)]; simpl.
  { destruct (decide (method ev = "GET")) as [Hget|Hget];
      [rewrite (bool_decide_eq_true_2 _ Hget)
      |rewrite (bool_decide_eq_false_2 _ Hget)]; simpl.
    - right. right. split; [done|].
      split; [rewrite Hget; by intros [? _]|].
      split; [rewrite Hget; by intros [? _]|].
      by intros response writes [= <- <-].
    - rewrite Hext. repeat (rewrite bool_decide_eq_false_2 by done). simpl.
      right. right. split; [done|].
      split; [by intros [_ [?|?]]|]. split; [by intros [_ ?]|].
      by intros response writes [= <- <-]. }
  destruct (decide (pathname ev = "/api/events")) as [Hev|Hev];
    [rewrite (bool_decide_eq_true_2 _ Hev)
    |rewrite (bool_decide_eq_false_2 _ Hev)]; simpl.
  { destruct (decide (method ev = "GET")) as [Hget|Hget];
      [rewrite (bool_decide_eq_true_2 _ Hget)
      |rewrite (bool_decide_eq_false_2 _ Hget)]; simpl.
    { right. right. split; [done|].
      split; [rewrite Hget; by intros [? _]|].
      split; [rewrite Hget; by intros [? _]|].
      by intros response writes [= <- <-]. }
    destruct (decide (method ev = "DELETE")) as [Hdel|Hdel];
      [rewrite (bool_decide_eq_true_2 _ Hdel)
      |rewrite (bool_decide_eq_false_2 _ Hdel)]; simpl.
    { right. left. split; [done|]. split; [done|].
      by destruct (handleDeleteEvents _ _) as [[r| |] writes]. }
    rewrite Hev. repeat (rewrite bool_decide_eq_false_2 by done). simpl.
    right. right. split; [done|].
    split; [by intros [_ [?|?]]|]. split; [by intros [? _]|].
    by intros response writes [= <- <-]. }
  destruct (decide (pathname ev = "/api/keys")) as [Hkeys|Hkeys];
    [rewrite (bool_decide_eq_true_2 _ Hkeys)
    |rewrite (bool_decide_eq_false_2 _ Hkeys)]; simpl.
  { destruct (decide (method ev = "GET")) as [Hget|Hget];
      [rewrite (bool_decide_eq_true_2 _ Hget)
      |rewrite (bool_decide_eq_false_2 _ Hget)]; simpl.
    - right. right. split; [done|].
      split; [rewrite Hget; by intros [? _]|].
      split; [rewrite Hget; by intros [? _]|].
      intros response writes.
      destruct (handleListDistinctKeys fuel env); simpl; [|done].
      by intros [= <- <-].
    - rewrite Hkeys. repeat (rewrite bool_decide_eq_false_2 by done). simpl.
      right. right. split; [done|].
      split; [by intros [_ [?|?]]|]. split; [by intros [_ ?]|].
      by intros response writes [= <- <-]. }
  destruct (decide (pathname ev = "/webhook" ∨ pathname ev = "/api/webhook"))
    as [Hhook|Hhook].
  - assert (bool_decide (pathname ev = "/webhook")
            || bool_decide (pathname ev = "/api/webhook") = true) as ->.
    { destruct Hhook as [H|H]; rewrite (bool_decide_eq_true_2 _ H);
        by rewrite ?orb_true_r. }
    simpl.
    destruct (decide (method ev = "POST")) as [Hpost|Hpost];
      [rewrite (bool_decide_eq_true_2 _ Hpost)
      |rewrite (bool_decide_eq_false_2 _ Hpost)]; simpl.
    + left. split; [done|]. split; [done|]. by destruct (handleWebhook _ _ _).
    + right. right. split; [done|].
      split; [by intros [? _]|]. split; [by intros [_ ?]|].
      by intros response writes [= <- <-].
  - assert (bool_decide (pathname ev = "/webhook")
            || bool_decide (pathname ev = "/api/webhook") = false) as ->.
    { rewrite !bool_decide_eq_false_2; [done|tauto..]. }
    simpl. right. right. split; [done|].
    split; [by intros [_ ?]|]. split; [by intros [_ ?]|].
    by intros response writes [= <- <-].
Qed.

Lemma buildCorsResponse_origin (response : HttpResponse) :
  http_headers (buildCorsResponse response) !! "access-control-allow-origin"
  = Some "*".
Proof.
  unfold buildCorsResponse. simpl.
  rewrite !lookup_insert_ne by done. apply lookup_insert_eq.
Qed.

Lemma buildCorsResponse_keeps (response : HttpResponse) (name : string) :
  name ≠ "access-control-allow-origin" →
  name ≠ "access-control-allow-methods" →
  name ≠ "access-control-allow-headers" →
  http_headers (buildCorsResponse response) !! name
  = http_headers response !! name.
Proof.
  intros. unfold buildCorsResponse. simpl. by rewrite !lookup_insert_ne.
Qed.

(** A [key] that is neither a string nor null makes [toEffectiveKey] throw
    before anything is issued. *)
Lemma handleDeleteEvents_key_throws (request : Request) (env : Env)
    (payload v : JSON) :
  requireBasicAuth request env = true →
  json request = Some payload →
  json_truthy payload = true → typeof_object payload = true →
  property "key" payload = Some v →
  is_null v = false → (∀ s, v ≠ JString s) →
  handleDeleteEvents request env = (ThrownTypeError, []).
Proof.
  intros Hauth Hjson Htruthy Hobject Hkey Hnull Hstring.
  unfold handleDeleteEvents.
  rewrite Hauth, Hjson, Htruthy, Hobject, Hkey. simpl.
  destruct v as [| | |s| |]; try done. by destruct (Hstring s).
Qed.

(** The status codes [handleDeleteEvents] returns. *)
Lemma handleDeleteEvents_statuses (request : Request) (env : Env) (r : Response) :
  (handleDeleteEvents request env).1 = Returned r →
  status r = 401%nat ∨ status r = 400%nat ∨ status r = 403%nat ∨
  status r = 200%nat.
Proof.
  unfold handleDeleteEvents.
  destruct (negb (requireBasicAuth request env)); simpl; [intros [= <-]; auto|].
  destruct (json request) as [payload|]; [|intros [= <-]; auto].
  destruct (negb (json_truthy payload) || negb (typeof_object payload));
    [intros [= <-]; auto|].
  destruct (property "key" payload) as [[| | |s| |]|]; try done;
    (destruct (negb (isApiKeyAllowed _ env)); [intros [= <-]; auto|];
     destruct (property "ids" payload) as [[| | | |[|? ?]|]|];
     try (intros [= <-]; auto);
     destruct (mapM _ _) as [keys|]; [|done];
     destruct (Promise_all _); [|done];
     intros [= <-]; auto).
Qed.

(** What [fetch] answers on the delete route, by the way
    [handleDeleteEvents] completes. *)
Lemma fetch_delete_route (fuel : nat) (ev : FetchEvent) (env : Env)
    (amb : Ambient) (response : HttpResponse) (writes : list KVWrite) :
  delete_route ev →
  fetch fuel ev env amb = Some (response, writes) →
  writes = (handleDeleteEvents (incoming ev) env).2 ∧
  match (handleDeleteEvents (incoming ev) env).1 with
  | Returned r =>
      http_status response = status r ∧ http_status response ≠ 500%nat ∧
      (status r = 200%nat → http_body response = JsonBody (payload r))
  | ThrownTypeError | ThrownStoreError =>
      http_status response = 500%nat ∧ http_body response = CaughtBody ∧
      http_headers response = json_headers
  end.
Proof.
  intros Hroute Hrun.
  destruct (fetch_branches fuel ev env amb)
    as [[Hopt _]|[(_ & [Hpost _] & _)|[(_ & _ & Heq)|(_ & _ & Hno & _)]]].
  - destruct Hroute as [Hdel _]. rewrite Hdel in Hopt. done.
  - destruct Hroute as [Hdel _]. rewrite Hdel in Hpost. done.
  - rewrite Heq in Hrun. injection Hrun as <- <-. split; [done|].
    pose proof (handleDeleteEvents_statuses (incoming ev) env) as Hstatuses.
    unfold handleDeleteEvents in *.
    destruct (requireBasicAuth (incoming ev) env); simpl in *; [|done].
    match goal with
    | |- context [match ?c.1 with _ => _ end] =>
        destruct c as [[r| |] ws]; simpl in *; try done
    end.
    split; [done|]. split; [|done].
    destruct (Hstatuses r eq_refl) as [->|[->|[->| ->]]]; done.
  - done.
Qed.

(** X9. Whatever the request, [fetch] writes to the store on two routes
    only. A put is issued only by a POST to [/webhook] or [/api/webhook],
    which issues that one put and nothing else and is answered 200, the put
    being taken to resolve. A delete is issued only by a DELETE to
    [/api/events] that carries the Basic credentials of the panel; its
    writes are deletes only, at most 500, and it is answered 200 when the
    store resolves every one of the calls and 500 when the store rejects one.
    Every other request, a GET and an OPTIONS in particular, issues no
    write; and a request answered with another status than 200 has issued no
    write unless it is a DELETE answered 500 one of whose delete calls the
    store rejected. *)
Theorem X9_router_store_writes (fuel : nat) (ev : FetchEvent) (env : Env)
    (amb : Ambient) (response : HttpResponse) (writes : list KVWrite) :
  fetch fuel ev env amb = Some (response, writes) →
  (∀ w, w ∈ writes → is_put w →
     webhook_route ev ∧ http_status response = 200%nat ∧ writes = [w]) ∧
  (∀ w, w ∈ writes → is_delete w →
     delete_route ev ∧ requireBasicAuth (incoming ev) env = true ∧
     Forall is_delete writes ∧ (length writes ≤ 500)%nat ∧
     ∃ keys,
       writes = KVDelete <$> keys ∧
       (store_accepts (WEBHOOKS env) keys → http_status response = 200%nat) ∧
       (¬ store_accepts (WEBHOOKS env) keys → http_status response = 500%nat)) ∧
  (¬ webhook_route ev → ¬ delete_route ev → writes = []) ∧
  (method ev = "GET" ∨ method ev = "OPTIONS" → writes = []) ∧
  (http_status response ≠ 200%nat →
     writes = [] ∨
     (delete_route ev ∧ http_status response = 500%nat ∧
      ∃ i k, writes !! i = Some (KVDelete k) ∧
             kv_delete (WEBHOOKS env) i k = false)).
Proof.
  intros Hrun.
  destruct (fetch_branches fuel ev env amb)
    as [[Hopt Heq]|[(Hopt & Hroute & Heq)|[(Hopt & Hroute & Heq)
       |(Hopt & Hnohook & Hnodelete & Hother)]]].
  - rewrite Heq in Hrun. injection Hrun as <- <-.
    split; [by intros w Hin%elem_of_nil|].
    split; [by intros w Hin%elem_of_nil|].
    split; [done|]. split; [done|]. by left.
  - rewrite Heq in Hrun. injection Hrun as <- <-.
    pose proof (handleWebhook_writes (incoming ev) env amb) as Hw.
    destruct (handleWebhook _ _ _) as [r ws]. simpl.
    destruct Hroute as [Hpost Hpath].
    destruct Hw as [[H200 (key & value & ->)]|[Hnot ->]].
    + split.
      { intros w ->%list_elem_of_singleton _. by repeat split. }
      split; [by intros w ->%list_elem_of_singleton|].
      split; [intros Hno; by destruct Hno|].
      split; [intros [Hm|Hm]; rewrite Hm in Hpost; done|]. done.
    + split; [by intros w Hin%elem_of_nil|].
      split; [by intros w Hin%elem_of_nil|].
      split; [done|]. split; [done|]. by left.
  - pose proof (fetch_delete_route _ _ _ _ _ _ Hroute Hrun) as [-> Hanswer].
    clear Heq Hrun.
    destruct (handleDeleteEvents_cases (incoming ev) env)
      as [->|(payload & ns & ids & keys & Hauth & _ & _ & _ & _ & _ & Hkeys
              & Hne & Hdelete)].
    { split; [by intros w Hin%elem_of_nil|].
      split; [by intros w Hin%elem_of_nil|].
      split; [done|]. split; [done|]. by left. }
    rewrite Hdelete in Hanswer |- *. simpl in *.
    assert (Forall is_delete (KVDelete <$> keys)) as Hdeletes.
    { apply Forall_fmap, Forall_forall. done. }
    split.
    { intros w Hin Hput. rewrite Forall_forall in Hdeletes.
      specialize (Hdeletes w Hin). by destruct w. }
    split.
    { intros w _ _. split; [done|]. split; [done|]. split; [done|].
      split; [rewrite length_fmap; by eapply derived_keys_length|].
      exists keys. split; [done|]. split.
      - intros Haccepts%store_accepts_forallb. rewrite Haccepts in Hanswer.
        by destruct Hanswer as [-> _].
      - intros Hrejects. destruct (Promise_all _) eqn:Hall.
        + by apply store_accepts_forallb in Hall.
        + by destruct Hanswer as [-> _]. }
    split; [intros _ Hno; by destruct Hno|].
    split.
    { destruct Hroute as [Hdel _]. intros [Hm|Hm]; rewrite Hm in Hdel; done. }
    intros Hstatus. right. split; [done|].
    destruct (Promise_all _) eqn:Hall.
    + destruct Hanswer as [Hok _]. done.
    + destruct Hanswer as [-> _]. split; [done|].
      apply store_rejects_forallb in Hall as (i & k & Hk & Hrejected).
      exists i, k. split; [|done]. by rewrite list_lookup_fmap, Hk.
  - pose proof (Hother _ _ Hrun) as [-> _].
    split; [by intros w Hin%elem_of_nil|].
    split; [by intros w Hin%elem_of_nil|].
    split; [done|]. split; [done|]. by left.
Qed.

(** X10. [fetch] sets the header [Access-Control-Allow-Origin: *] on the
    answers to OPTIONS requests and to POSTs on the two webhook paths, and
    on no other answer. An OPTIONS request is answered 204 with no body
    whatever its path; the answer to a webhook POST keeps the status, the
    JSON body and the content type [handleWebhook] gave it. *)
Theorem X10_cors_on_preflight_and_webhook (fuel : nat) (ev : FetchEvent)
    (env : Env) (amb : Ambient) (response : HttpResponse)
    (writes : list KVWrite) :
  fetch fuel ev env amb = Some (response, writes) →
  (http_headers response !! "access-control-allow-origin" = Some "*" ↔
     method ev = "OPTIONS" ∨ webhook_route ev) ∧
  (http_headers response !! "access-control-allow-origin" = None ↔
     ¬ (method ev = "OPTIONS" ∨ webhook_route ev)) ∧
  (method ev = "OPTIONS" →
     http_status response = 204%nat ∧ http_body response = NullBody) ∧
  (webhook_route ev →
     http_status response = status (handleWebhook (incoming ev) env amb).1 ∧
     http_body response
     = JsonBody (payload (handleWebhook (incoming ev) env amb).1) ∧
     http_headers response !! "content-type" = Some "application/json").
Proof.
  intros Hrun.
  destruct (fetch_branches fuel ev env amb)
    as [[Hopt Heq]|[(Hopt & Hroute & Heq)|[(Hopt & Hroute & Heq)
       |(Hopt & Hnohook & _ & Hother)]]].
  - rewrite Heq in Hrun. injection Hrun as <- <-.
    rewrite buildCorsResponse_origin.
    split; [by split; [left|]|]. split; [by split; [|intros []; left]|].
    split; [done|]. intros [Hpost _]. rewrite Hopt in Hpost. done.
  - rewrite Heq in Hrun. injection Hrun as <- <-.
    rewrite buildCorsResponse_origin.
    split; [by split; [right|]|]. split; [by split; [|intros []; right]|].
    split; [done|]. intros _. split; [done|]. split; [done|].
    by rewrite buildCorsResponse_keeps.
  - rewrite Heq in Hrun. injection Hrun as <- _.
    assert (¬ (method ev = "OPTIONS" ∨ webhook_route ev)) as Hneither.
    { intros [?|[Hpost _]]; [done|]. destruct Hroute as [Hdel _].
      rewrite Hdel in Hpost. done. }
    assert (http_headers
              match (handleDeleteEvents (incoming ev) env).1 with
              | Returned r =>
                  if requireBasicAuth (incoming ev) env then json_response r
                  else unauthorized false
              | ThrownTypeError | ThrownStoreError =>
                  {| http_status := 500; http_headers := json_headers;
                     http_body := CaughtBody |}
              end !! "access-control-allow-origin" = None) as ->.
    { destruct (handleDeleteEvents _ _).1; [|done..].
      by destruct (requireBasicAuth _ _). }
    split; [by split|]. split; [by split|]. split; [done|].
    intros Hhook. destruct Hneither. by right.
  - destruct (Hother _ _ Hrun) as [_ ->].
    assert (¬ (method ev = "OPTIONS" ∨ webhook_route ev)) as Hneither
      by (intros [?|?]; done).
    split; [by split|]. split; [by split|]. split; done.
Qed.

(** X11. On the delete route [fetch] answers 500 exactly when
    [handleDeleteEvents] throws, and the answer then carries the message of
    the error as JSON. It throws, in particular, in three cases. When the
    request is authenticated, its body is an object or an array and its
    [key] is neither a string nor null, [toEffectiveKey] throws and no
    delete is issued, whatever [ids] the body lists. When the request
    reaches batch delete with a non-empty [ids] array one of whose first 500
    entries holds an object with an own [toString] property, the conversion
    throws and no delete is issued. When it reaches batch delete with ids
    that all convert and the store rejects one of the delete calls, the
    handler throws after all the deletes were issued. A request that reaches
    batch delete with ids that all convert, against a store that resolves
    every call, is answered 200 with the number of keys. *)
Theorem X11_thrown_errors_answered_500 (fuel : nat) (ev : FetchEvent)
    (env : Env) (amb : Ambient) (response : HttpResponse)
    (writes : list KVWrite) :
  delete_route ev →
  fetch fuel ev env amb = Some (response, writes) →
  (http_status response = 500%nat ↔
     ∀ r, (handleDeleteEvents (incoming ev) env).1 ≠ Returned r) ∧
  (http_status response = 500%nat →
     http_body response = CaughtBody ∧ http_headers response = json_headers) ∧
  (∀ payload v,
     requireBasicAuth (incoming ev) env = true →
     json (incoming ev) = Some payload →
     json_truthy payload = true → typeof_object payload = true →
     property "key" payload = Some v →
     is_null v = false → (∀ s, v ≠ JString s) →
     http_status response = 500%nat ∧ writes = []) ∧
  (∀ namespace ids,
     reaches_batch_delete (incoming ev) env namespace (Some (JArray ids)) →
     ids ≠ [] →
     ((∃ id, id ∈ take 500 ids ∧ unprintable id) →
        http_status response = 500%nat ∧ writes = []) ∧
     (∀ keys, derived_keys namespace ids = Some keys →
        writes = KVDelete <$> keys ∧
        (¬ store_accepts (WEBHOOKS env) keys → http_status response = 500%nat) ∧
        (store_accepts (WEBHOOKS env) keys →
           http_status response = 200%nat ∧
           http_body response = JsonBody (BodyDeleted (length keys))))).
Proof.
  intros Hroute Hrun.
  pose proof (fetch_delete_route _ _ _ _ _ _ Hroute Hrun) as [-> Hanswer].
  split; [|split; [|split]].
  - destruct (handleDeleteEvents (incoming ev) env).1 as [r| |].
    + destruct Hanswer as (_ & Hnot & _). split; [done|].
      intros Hthrows. by destruct (Hthrows r).
    + by destruct Hanswer as (-> & _).
    + by destruct Hanswer as (-> & _).
  - destruct (handleDeleteEvents (incoming ev) env).1 as [r| |].
    + by destruct Hanswer as (_ & Hnot & _).
    + by destruct Hanswer as (_ & -> & ->).
    + by destruct Hanswer as (_ & -> & ->).
  - intros payload v Hauth Hjson Htruthy Hobject Hkey Hnull Hstring.
    rewrite (handleDeleteEvents_key_throws _ _ _ _ Hauth Hjson Htruthy Hobject
               Hkey Hnull Hstring) in Hanswer |- *.
    by destruct Hanswer as (-> & _).
  - intros namespace ids Hreach Hne. destruct ids as [|id rest]; [done|].
    rewrite (handleDeleteEvents_reached _ _ _ _ Hreach) in Hanswer |- *.
    split.
    + intros Hex. apply (proj2 (derived_keys_throws namespace _)) in Hex.
      rewrite Hex in Hanswer |- *. by destruct Hanswer as (-> & _).
    + intros keys Hkeys. rewrite Hkeys in Hanswer |- *.
      split; [by destruct (Promise_all _)|]. split.
      * intros Hrejects. destruct (Promise_all _) eqn:Hall.
        -- by apply store_accepts_forallb in Hall.
        -- by destruct Hanswer as (-> & _).
      * intros Haccepts%store_accepts_forallb. rewrite Haccepts in Hanswer.
        simpl in Hanswer. destruct Hanswer as (-> & _ & Hbody).
        split; [done|]. by apply Hbody.
Qed.

End RouterProperties.

(** * Bounds on the read paths *)

Lemma honours_limit_scan (kv : KVNamespace) (cursor : option string) :
  honours_limit kv (scan_query cursor) →
  (length (page_keys (kv_list kv (scan_query cursor))) ≤ 1000)%nat.
Proof.
  unfold honours_limit, Num.of_nat.
  change (opt_limit (scan_query cursor)) with (JsInt 1000).
  rewrite leb_JsInt. intros Hle%bool_decide_eq_true. lia.
Qed.

Lemma scan_pages_total (kv : KVNamespace) (cursor : option string)
    (scanned : nat) (pages : list KVNamespaceListResult) :
  (∀ c, honours_limit kv (scan_query c)) →
  scan_pages kv cursor scanned pages →
  (scanned + length (scanned_names pages) ≤ scanned `max` 2999)%nat.
Proof.
  intros Hlimit. unfold scanned_names.
  induction 1 as [cursor scanned Hspent
                 |cursor scanned keys Hbudget Hpage
                 |cursor scanned keys next pages Hbudget Hpage _ IH]; csimpl.
  - lia.
  - pose proof (honours_limit_scan kv cursor (Hlimit cursor)) as Hlen.
    rewrite Hpage in Hlen. simpl in Hlen. rewrite app_nil_r.
    unfold maxScan in Hbudget. lia.
  - pose proof (honours_limit_scan kv cursor (Hlimit cursor)) as Hlen.
    rewrite Hpage in Hlen. simpl in Hlen. rewrite length_app.
    unfold maxScan in Hbudget. lia.
Qed.

Lemma scan_pages_calls (kv : KVNamespace) (cursor : option string)
    (scanned : nat) (pages : list KVNamespaceListResult) :
  progresses kv →
  scan_pages kv cursor scanned pages →
  (length pages ≤ maxScan - scanned)%nat.
Proof.
  intros Hprogress.
  induction 1 as [cursor scanned Hspent
                 |cursor scanned keys Hbudget Hpage
                 |cursor scanned keys next pages Hbudget Hpage _ IH]; simpl.
  - lia.
  - lia.
  - apply Hprogress in Hpage. destruct keys; [done|]. simpl in IH. lia.
Qed.

Lemma foldl_add_prefix_length (names distinct : list string) :
  (length (foldl add_prefix distinct names) ≤ length distinct + length names)%nat.
Proof.
  revert distinct. induction names as [|name names IH]; intros distinct; simpl.
  - lia.
  - etrans; [apply IH|].
    assert (length (add_prefix distinct name) ≤ S (length distinct))%nat; [|lia].
    unfold add_prefix, scan_key, Set_add. simpl.
    destruct (_ && _); [|lia]. case_bool_decide; [lia|].
    rewrite length_app. simpl. lia.
Qed.

Lemma effective_limit_within `{host : JsHost} (limitParam : option string) :
  within 1 200 (effective_limit limitParam).
Proof.
  unfold effective_limit, Num.or.
  destruct (Num.truthy (Number limitParam)) eqn:Hn.
  - apply min_max_clamps. by destruct (Number limitParam).
  - by apply min_max_clamps.
Qed.

Section ReadBounds.
Context `{host : JsHost}.

(** X12. Against a store that answers a [list] call with no more keys than
    the limit it was given, a namespace scan that returns has looked at
    2999 key names at most, so it returns 2999 namespaces at most; and
    against a store whose incomplete pages carry at least one key it has
    made 2000 [list] calls at most. *)
Theorem X12_scan_work_bounded (env : Env) (fuel : nat) (response : Response) :
  (∀ cursor, honours_limit (WEBHOOKS env) (scan_query cursor)) →
  handleListDistinctKeys fuel env = Some response →
  ∃ pages keys,
    scan_pages (WEBHOOKS env) None 0 pages ∧
    payload response = BodyKeys keys ∧
    (length (scanned_names pages) ≤ 2999)%nat ∧
    (length keys ≤ length (scanned_names pages))%nat ∧
    (progresses (WEBHOOKS env) → (length pages ≤ 2000)%nat).
Proof.
  intros Hlimit. unfold handleListDistinctKeys.
  destruct (scan_loop fuel env None 0 []) as [distinct|] eqn:Hloop; [|done].
  simpl. intros [= <-].
  apply scan_loop_pages in Hloop as (pages & Hpages & ->).
  exists pages, (Array_sort localeCompare
                   (foldl add_prefix [] (scanned_names pages))).
  split; [done|]. split; [done|]. split; [|split].
  - pose proof (scan_pages_total _ _ _ _ Hlimit Hpages). lia.
  - assert (∀ l, length (Array_sort localeCompare l) = length l) as ->.
    { induction l as [|x l IH]; simpl; [done|]. rewrite <-IH.
      generalize (Array_sort localeCompare l). intros sorted.
      induction sorted as [|y sorted IH']; simpl; [done|].
      destruct (localeCompare x y); simpl; by rewrite ?IH'. }
    pose proof (foldl_add_prefix_length (scanned_names pages) []). simpl in *. lia.
  - intros Hprogress.
    pose proof (scan_pages_calls _ _ _ _ Hprogress Hpages). unfold maxScan in *. lia.
Qed.

(** X13. [handleListEvents] answers by the gate on the namespace the
    request selects. When the gate rejects it, the answer is the 403 error
    "Forbidden api_key". When the gate lets it through, the answer is a 200
    page; every event of the page is the value the store gave for a key of
    the one [list] call made; and when the store answered that call with no
    more keys than the limit it was given, the page has 200 events at most,
    whatever [limit] the request asks for. *)
Theorem X13_listing_at_most_200_events (request : Request) (env : Env) :
  let namespace :=
    toEffectiveKey (match query_key request with
                    | Some s => Some s
                    | None => readApiKey request
                    end) in
  (isApiKeyAllowed namespace env = false →
     handleListEvents request env = json_error 403 "Forbidden api_key") ∧
  (isApiKeyAllowed namespace env = true →
     ∃ events cursor listComplete,
       handleListEvents request env =
         {| status := 200; payload := BodyEvents events cursor listComplete |} ∧
       (∀ e, e ∈ events →
          ∃ k, k ∈ page_keys (kv_list (WEBHOOKS env) (listing_query request)) ∧
               kv_get (WEBHOOKS env) k = Some e) ∧
       (honours_limit (WEBHOOKS env) (listing_query request) →
          (length events ≤ 200)%nat)).
Proof.
  unfold listing_query, handleListEvents.
  set (apiKey := toEffectiveKey _).
  set (cursor := if present _ then _ else _).
  set (limit := effective_limit (query_limit request)).
  simpl. split; [by intros ->|]. intros ->. simpl.
  exists (listing_events (listEventsForApiKey env apiKey limit cursor)),
         (listing_cursor (listEventsForApiKey env apiKey limit cursor)),
         (listing_listComplete (listEventsForApiKey env apiKey limit cursor)).
  split; [done|].
  unfold listEventsForApiKey. cbn [listing_events].
  rewrite drop_nulls_omap. split.
  - intros e. by rewrite list_elem_of_omap.
  - intros Hlimit. unfold honours_limit in Hlimit.
    pose proof (omap_length_le (kv_get (WEBHOOKS env))
                  (page_keys (kv_list (WEBHOOKS env)
                                (list_query apiKey limit cursor)))) as Hevents.
    pose proof (effective_limit_within (query_limit request)) as Hwithin.
    fold limit in Hwithin. unfold list_query in Hlimit at 2.
    cbn [opt_limit] in Hlimit.
    destruct limit as [| | |q]; try done. cbn [within] in Hwithin.
    destruct Hwithin as [_ Hhi].
    assert (Num.leb (Num.of_nat (length (page_keys (kv_list (WEBHOOKS env)
                (list_query apiKey (JsFin q) cursor))))) (JsInt 200) = true)
      as Hle.
    { eapply leb_trans; [exact Hlimit|].
      destruct (min_leb_r (JsInt 1000) (JsFin q)) as [Hmin|Hnan].
      - eapply leb_trans; [exact Hmin|].
        unfold Num.leb, JsInt. by apply Qc_leb_le.
      - exfalso. revert Hnan. unfold Num.min, JsInt.
        by destruct (Num.leb (JsFin (Qc_of_Z 1000)) (JsFin q)). }
    unfold Num.of_nat in Hle. rewrite leb_JsInt in Hle.
    apply bool_decide_eq_true in Hle. lia.
Qed.

End ReadBounds.

(** * Allow-list entries *)

Lemma split_pieces_no_separator (sep : ascii) (s piece : string) :
  piece ∈ Str.split sep s → sep ∉ Str.to_list piece.
Proof.
  revert piece. induction s as [|a s IH]; intros piece; simpl.
  - intros ->%list_elem_of_singleton. apply not_elem_of_nil.
  - case_decide as Ha.
    + intros [->|Hin]%elem_of_cons; [apply not_elem_of_nil | by apply IH].
    + destruct (Str.split sep s) as [|p ps]; simpl.
      * intros ->%list_elem_of_singleton. simpl.
        rewrite not_elem_of_cons. split; [congruence | apply not_elem_of_nil].
      * intros [->|Hin]%elem_of_cons; simpl.
        -- rewrite not_elem_of_cons. split; [congruence|]. apply IH. left.
        -- apply IH. by right.
Qed.

Lemma split_all_blank (sep : ascii) (s : string) :
  Str.is_white sep = false →
  Forall blank (Str.split sep s) ↔
  ∀ c, c ∈ Str.to_list s → c = sep ∨ Str.is_white c = true.
Proof.
  intros Hsep. induction s as [|a s IH]; simpl.
  - split.
    + intros _ c Hc. by apply elem_of_nil in Hc.
    + intros _. repeat constructor.
  - case_decide as Ha.
    + rewrite Forall_cons, IH. split.
      * intros [_ Hall] c [->|Hc]%elem_of_cons; [by left | by apply Hall].
      * intros Hall. split; [constructor|]. intros c Hc. apply Hall. by right.
    + destruct (Str.split sep s) as [|p ps] eqn:Hsplit.
      * rewrite Forall_nil in IH. rewrite Forall_singleton.
        unfold blank. simpl. rewrite Forall_singleton. split.
        -- intros Hwhite c [->|Hc]%elem_of_cons; [by right|].
           by apply (proj1 IH I).
        -- intros Hall. destruct (Hall a) as [?|?]; [left|done..].
      * rewrite Forall_cons in *. unfold blank at 1. simpl.
        rewrite Forall_cons. fold (blank p). split.
        -- intros [[Hwhite Hp] Hps] c [->|Hc]%elem_of_cons; [by right|].
           by apply (proj1 IH (conj Hp Hps)).
        -- intros Hall.
           assert (blank p ∧ Forall blank ps) as [Hp Hps].
           { apply IH. intros c Hc. apply Hall. by right. }
           split; [|done]. split; [|done].
           destruct (Hall a) as [?|?]; [left|done..].
Qed.

Lemma trim_chars (s : string) (c : ascii) :
  c ∈ Str.to_list (Str.trim s) → c ∈ Str.to_list s.
Proof.
  unfold Str.trim. rewrite to_list_of_list. intros Hc.
  assert (c ∈ Str.to_list (Str.trimStart s)) as Hstart.
  { destruct (trimEnd_list_prefix (Str.to_list (Str.trimStart s))) as [r ->].
    apply elem_of_app. by left. }
  clear Hc. induction s as [|a s IH]; simpl in *; [done|].
  destruct (Str.is_white a); [right; by apply IH | done].
Qed.

(** X14. Every entry of the allow-list the gate works with is non-empty,
    has no white space at either end and contains no comma. The list is
    empty, and the gate open, exactly when the configured text consists of
    commas and white space only, the missing and the empty text included;
    and when the list is not empty the gate rejects every namespace that
    contains a comma. *)
Theorem X14_allowlist_entries (env : Env) :
  (∀ entry, entry ∈ allowlist_of env →
     entry ≠ "" ∧ trimmed entry ∧ ","%char ∉ Str.to_list entry) ∧
  (allowlist_of env = [] ↔
     ∀ c, c ∈ Str.to_list (default "" (ALLOWED_API_KEYS env)) →
          c = ","%char ∨ Str.is_white c = true) ∧
  (∀ namespace,
     allowlist_of env ≠ [] → ","%char ∈ Str.to_list namespace →
     isApiKeyAllowed namespace env = false).
Proof.
  assert (∀ entry, entry ∈ allowlist_of env →
            entry ≠ "" ∧ trimmed entry ∧ ","%char ∉ Str.to_list entry)
    as Hentries.
  { intros entry (Hne & piece & Hpiece & ->)%allowlist_of_spec.
    split; [done|]. split; [apply trim_trimmed|].
    intros Hcomma%trim_chars.
    by apply (split_pieces_no_separator _ _ _ Hpiece). }
  split; [done|]. split.
  - rewrite <-(split_all_blank ","%char) by done.
    unfold allowlist_of.
    generalize (Str.split "," (default "" (ALLOWED_API_KEYS env))).
    intros pieces. induction pieces as [|p pieces IH]; simpl.
    + split; [constructor | done].
    + rewrite Forall_cons, <-IH, <-trim_blank.
      destruct (Str.trim p); simpl; [tauto|].
      split; [done | by intros [? _]].
  - intros namespace Hne Hcomma. unfold isApiKeyAllowed.
    destruct (allowlist_of env) as [|e l] eqn:Hlist; [done|]. simpl.
    apply bool_decide_eq_false. intros Hin.
    by apply Hentries in Hin as (_ & _ & ?).
Qed.

(** * Witnesses of the further properties *)

Example sample_escapeHtml :
  Html.escapeHtml "<a href='x'>Q&A</a>"
  = "&lt;a href=&#039;x&#039;&gt;Q&amp;A&lt;/a&gt;".
Proof. reflexivity. Qed.

Example sample_effective_keys :
  toEffectiveKey (Some "  demo ") = "demo" ∧
  toEffectiveKey (Some "   ") = "NO-KEY" ∧
  toEffectiveKey None = "NO-KEY".
Proof. repeat split; reflexivity. Qed.

(** A body with the number [1e999], which parses to an infinity, is stored
    with [null] in its place. *)
Example sample_ingest_overflow :
  (handleWebhook (Sample.post_with "demo" (JObject [("n", JNumber JsPosInf)]))
     (Sample.env (Some "demo")) Sample.eleven).2
  = [KVPut "demo:2024-01-15T10-30-00-000Z_4fx70l9u"
       {| id := "2024-01-15T10-30-00-000Z_4fx70l9u"; apiKey := "demo";
          receivedAt := "2024-01-15T10:30:00.000Z";
          body := JObject [("n", JNull)] |}].
Proof. vm_compute. reflexivity. Qed.

(** An array is converted by [join]; an object with an own [toString]
    property is not converted. *)
Example sample_ToString :
  ToString (H := Reference.host)
    (JArray [JString "a"; JNull; JArray [JBool true; JObject []]])
  = Some "a,,true,[object Object]" ∧
  ToString (H := Reference.host) (JObject [("toString", JNumber (JsInt 1))])
  = None ∧
  ToString (H := Reference.host)
    (JArray [JString "a"; JObject [("toString", JNull)]])
  = None.
Proof. repeat split; reflexivity. Qed.

Lemma X3_witness_demo_ping :
  status (handleWebhook
            (Sample.post_with "demo" (JObject [("ping", JString "pong")]))
            (Sample.env (Some "demo")) Sample.eleven).1 = 200%nat ∧
  ∃ record,
    body record = JObject [("ping", JString "pong")] ∧
    kv_run (handleWebhook
              (Sample.post_with "demo" (JObject [("ping", JString "pong")]))
              (Sample.env (Some "demo")) Sample.eleven).2 ∅
      !! makeStorageKey (apiKey record) (id record) = Some record.
Proof.
  split; [reflexivity|].
  destruct (X3_ingest_then_lookup
              (Sample.post_with "demo" (JObject [("ping", JString "pong")]))
              (Sample.env (Some "demo")) Sample.eleven ∅ eq_refl)
    as (fields & record & Hjson & _ & _ & _ & _ & _ & _ & _ & Hsame & Hlookup & _).
  exists record. split; [|exact Hlookup].
  simpl in Hjson. injection Hjson as <-. apply Hsame.
  - apply NoDup_singleton.
  - intros kv ->%list_elem_of_singleton Hnumber. exact Hnumber.
Defined.

Lemma X4_witness_two_ingestions :
  status (handleWebhook
            (Sample.post_with "demo" (JObject [("ping", JString "pong")]))
            (Sample.env None) Sample.half).1 = 200%nat ∧
  status (handleWebhook
            (Sample.post_with "demo" (JObject [("n", JNull)]))
            (Sample.env None) Sample.eleven).1 = 200%nat ∧
  ∃ key2 record2,
    kv_run
      ((handleWebhook
          (Sample.post_with "demo" (JObject [("ping", JString "pong")]))
          (Sample.env None) Sample.half).2
       ++ (handleWebhook
             (Sample.post_with "demo" (JObject [("n", JNull)]))
             (Sample.env None) Sample.eleven).2) ∅
      !! key2 = Some record2.
Proof.
  split; [reflexivity|]. split; [reflexivity|].
  destruct (X4_later_ingestion_wins
              (Sample.post_with "demo" (JObject [("ping", JString "pong")]))
              (Sample.post_with "demo" (JObject [("n", JNull)]))
              (Sample.env None) Sample.half Sample.eleven ∅ eq_refl eq_refl)
    as (key1 & record1 & key2 & record2 & _ & _ & _ & Hfinal & _).
  by exists key2, record2.
Defined.

Lemma X7_witness_other_namespace :
  json (Sample.delete_with
          (JObject [("key", JString "demo"); ("ids", JArray [JString "2024-a"])]))
  = Some (JObject [("key", JString "demo"); ("ids", JArray [JString "2024-a"])]) ∧
  namespace_of
    (JObject [("key", JString "demo"); ("ids", JArray [JString "2024-a"])])
  = Some "demo" ∧
  colon_free "demo" ∧ colon_free "other" ∧ "other" ≠ "demo" ∧
  kv_run
    (handleDeleteEvents (host := Reference.host)
       (Sample.delete_with
          (JObject [("key", JString "demo"); ("ids", JArray [JString "2024-a"])]))
       (Sample.env None)).2
    {[ "other:2024-c" := Sample.event "other" "2024-c" ]}
    !! makeStorageKey "other" "2024-c"
  = ({[ "other:2024-c" := Sample.event "other" "2024-c" ]}
       : gmap string EventRecord) !! makeStorageKey "other" "2024-c".
Proof.
  split; [reflexivity|]. split; [reflexivity|]. split; [reflexivity|].
  split; [reflexivity|]. split; [discriminate|].
  apply (X7_delete_confined_to_namespace (host := Reference.host)
           _ _ (JObject [("key", JString "demo");
                         ("ids", JArray [JString "2024-a"])]) "demo");
    [reflexivity | reflexivity | reflexivity | reflexivity | discriminate].
Defined.

Lemma X9_witness_webhook_post :
  ∃ response w,
    fetch (host := Reference.host) 0 Routes.post_webhook (Sample.env None)
      Sample.eleven = Some (response, [w]) ∧
    is_put w ∧
    webhook_route Routes.post_webhook ∧ http_status response = 200%nat.
Proof.
  destruct (fetch (host := Reference.host) 0 Routes.post_webhook
              (Sample.env None) Sample.eleven)
    as [[response writes]|] eqn:Hrun; [|discriminate Hrun].
  pose proof Hrun as Hvalue. unfold fetch in Hvalue. simpl in Hvalue.
  injection Hvalue as _ <-.
  eexists response, _. split; [reflexivity|]. split; [exact I|].
  destruct (X9_router_store_writes (host := Reference.host) _ _ _ _ _ _ Hrun)
    as (Hput & _).
  edestruct Hput as (Hroute & Hstatus & _); [by left | exact I |].
  by split.
Defined.

Lemma X10_witness_webhook_post :
  ∃ response writes,
    fetch (host := Reference.host) 0 Routes.post_webhook (Sample.env None)
      Sample.eleven = Some (response, writes) ∧
    http_headers response !! "access-control-allow-origin" = Some "*".
Proof.
  destruct (fetch (host := Reference.host) 0 Routes.post_webhook
              (Sample.env None) Sample.eleven)
    as [[response writes]|] eqn:Hrun; [|discriminate Hrun].
  exists response, writes. split; [reflexivity|].
  apply (X10_cors_on_preflight_and_webhook (host := Reference.host)
           _ _ _ _ _ _ Hrun).
  right. split; [reflexivity | left; reflexivity].
Defined.

Lemma X11_witness_numeric_key :
  delete_route Routes.delete_numeric_key ∧
  ∃ response writes,
    fetch (host := Reference.host) 0 Routes.delete_numeric_key
      (Sample.env None) Sample.eleven = Some (response, writes) ∧
    http_status response = 500%nat ∧ writes = [].
Proof.
  assert (delete_route Routes.delete_numeric_key) as Hroute by by split.
  split; [exact Hroute|].
  destruct (fetch (host := Reference.host) 0 Routes.delete_numeric_key
              (Sample.env None) Sample.eleven)
    as [[response writes]|] eqn:Hrun; [|discriminate Hrun].
  exists response, writes. split; [reflexivity|].
  destruct (X11_thrown_errors_answered_500 (host := Reference.host)
              _ _ _ _ _ _ Hroute Hrun) as (_ & _ & Hkey & _).
  apply (Hkey (JObject [("key", JNumber (JsInt 5));
                        ("ids", JArray [JString "2024-a"])])
              (JNumber (JsInt 5))); try reflexivity.
  intros s. discriminate.
Defined.

Lemma X12_witness_sample_store :
  (∀ cursor, honours_limit (WEBHOOKS (Sample.env None)) (scan_query cursor)) ∧
  handleListDistinctKeys (host := Reference.host) maxScan (Sample.env None)
  = Some {| status := 200; payload := BodyKeys ["demo"; "other"] |} ∧
  ∃ pages,
    scan_pages (WEBHOOKS (Sample.env None)) None 0 pages ∧
    (length (scanned_names pages) ≤ 2999)%nat.
Proof.
  assert (∀ cursor,
            honours_limit (WEBHOOKS (Sample.env None)) (scan_query cursor))
    as Hlimit.
  { intros [c|]; vm_compute; reflexivity. }
  assert (handleListDistinctKeys (host := Reference.host) maxScan
            (Sample.env None)
          = Some {| status := 200; payload := BodyKeys ["demo"; "other"] |})
    as Hrun by (vm_compute; reflexivity).
  split; [exact Hlimit|]. split; [exact Hrun|].
  destruct (X12_scan_work_bounded (host := Reference.host) _ _ _ Hlimit Hrun)
    as (pages & keys & Hpages & _ & Hbound & _).
  by exists pages.
Defined.

Lemma X13_witness_demo_listing :
  isApiKeyAllowed "demo" (Sample.env None) = true ∧
  honours_limit (WEBHOOKS (Sample.env None))
    (listing_query (H := Reference.host) (Sample.listing_of "demo" "2")) ∧
  ∃ events cursor listComplete,
    handleListEvents (host := Reference.host) (Sample.listing_of "demo" "2")
      (Sample.env None)
    = {| status := 200; payload := BodyEvents events cursor listComplete |} ∧
    (length events ≤ 200)%nat.
Proof.
  assert (honours_limit (WEBHOOKS (Sample.env None))
            (listing_query (H := Reference.host) (Sample.listing_of "demo" "2")))
    as Hlimit by (vm_compute; reflexivity).
  split; [reflexivity|]. split; [exact Hlimit|].
  destruct (X13_listing_at_most_200_events (host := Reference.host)
              (Sample.listing_of "demo" "2") (Sample.env None))
    as [_ Hpage].
  destruct (Hpage eq_refl) as (events & cursor & listComplete & Hrun & _ & Hbound).
  exists events, cursor, listComplete. split; [exact Hrun | by apply Hbound].
Defined.
